(** * Post-processing of YOLOv3 detector output (trt_package/detector.py)

    A shallow embedding of [PostprocessYOLO] and of the part of
    [DarknetTRT.__call__] that feeds it, with the properties of the
    decode / filter / suppress pipeline.

    Numbers.  NumPy floats are modelled by exact rationals [Q]: rounding,
    overflow and signed zeros are not modelled.  The one place where finite
    inputs yield a non-finite float in exact arithmetic, the division
    [intersection / union] of the suppression loop, keeps its IEEE-754
    outcome ([np_float]): [x / 0] is an infinity or [nan], and a comparison
    with [nan] is [False].

    Arrays.  A NumPy array is a list in C order: an [(N, 4)] array of boxes is
    a list of [Box], the [(H, W, 3, k)] arrays of the decode step are lists of
    [H * W * 3] cells.  Index arrays are lists of [nat].

    Other methods.  [DarknetTRT.draw_bboxes] is modelled by the calls that it
    makes on its [ImageDraw] object, [DarknetTRT.image_preparation] by the
    fields [h], [w] and [padded_image] that it maintains.  The resize by
    OpenCV, the TensorRT engine and its buffers are not modelled. *)

From Stdlib Require Import QArith Qminmax List Bool Arith Lia Permutation Sorted.
From Stdlib Require Import ZArith Lqa Qround.
From Stdlib Require String.
Import String.StringSyntax.
Delimit Scope string_scope with string.
Import ListNotations.
Open Scope nat_scope.

(** ** NumPy primitives used by the detector *)

Module Numpy.

(** Outcome of a float division. *)
Inductive np_float : Type :=
| Finite (q : Q)
| PosInf
| NegInf
| NaN.

(** [a / b] on arrays of floats; division by zero only warns. *)
Definition true_divide (a b : Q) : np_float :=
  if Qeq_bool b 0 then
    match (a ?= 0)%Q with
    | Gt => PosInf
    | Lt => NegInf
    | Eq => NaN
    end
  else Finite (a / b).

(** [v <= t] for a float [v] and a finite [t]. *)
Definition less_equal (v : np_float) (t : Q) : bool :=
  match v with
  | Finite q => Qle_bool q t
  | NegInf => true
  | PosInf => false
  | NaN => false
  end.

(** Element-wise binary operation on two arrays of one shape. *)
Fixpoint zip_with {A B C : Type} (f : A -> B -> C) (a : list A) (b : list B)
  : list C :=
  match a, b with
  | x :: a', y :: b' => f x y :: zip_with f a' b'
  | _, _ => []
  end.

(** [a[idx]] for an index array [idx].  The detector only indexes in range;
    [d] stands for the [IndexError] of NumPy. *)
Definition take {A : Type} (d : A) (a : list A) (idx : list nat) : list A :=
  map (fun i => nth i a d) idx.

Fixpoint where_from (k : nat) (m : list bool) : list nat :=
  match m with
  | [] => []
  | b :: m' => if b then k :: where_from (S k) m' else where_from (S k) m'
  end.

(** [np.where(m)[0]]: the positions at which [m] holds, increasing. *)
Definition where_ (m : list bool) : list nat := where_from 0 m.

(** [np.max] along an axis: reduction with [np.maximum].  NumPy raises on
    an axis of length 0; the class axis of the detector has 80 entries *)
Definition amax (l : list Q) : Q :=
  match l with
  | [] => 0%Q
  | x :: l' => fold_left Qmax l' x
  end.

Fixpoint argmax_from (best_i : nat) (best : Q) (i : nat) (l : list Q) : nat :=
  match l with
  | [] => best_i
  | x :: l' =>
      if Qle_bool x best then argmax_from best_i best (S i) l'
      else argmax_from i x (S i) l'
  end.

(** [np.argmax] along an axis: the first position of the maximum. *)
Definition argmax (l : list Q) : nat :=
  match l with
  | [] => 0
  | x :: l' => argmax_from 0 x 1 l'
  end.

Fixpoint insert_index (key : list Q) (i : nat) (sorted : list nat) : list nat :=
  match sorted with
  | [] => [i]
  | j :: sorted' =>
      if Qle_bool (nth i key 0%Q) (nth j key 0%Q) then i :: sorted
      else j :: insert_index key i sorted'
  end.

(** [a.argsort()]: the indices of [a] by ascending value.  NumPy leaves the
    order of equal values to its sort; here equal values keep their index
    order. *)
Definition argsort (a : list Q) : list nat :=
  fold_right (insert_index a) [] (seq 0 (length a)).

End Numpy.

Import Numpy.

(** ** Exceptions *)

Inductive exn : Type :=
| ValueError
| IndexError.

Inductive result (A : Type) : Type :=
| Ok (a : A)
| Raise (e : exn).

Arguments Ok {A} a.
Arguments Raise {A} e.

Definition bind {A B : Type} (m : result A) (k : A -> result B) : result B :=
  match m with
  | Ok a => k a
  | Raise e => Raise e
  end.

Notation "x <- m ;; k" := (bind m (fun x => k))
  (at level 61, m at next level, right associativity).

(** A [for] loop that appends [f x] to a list; the first exception ends it. *)
Fixpoint for_each {A B : Type} (f : A -> result B) (l : list A)
  : result (list B) :=
  match l with
  | [] => Ok []
  | x :: l' => y <- f x ;; ys <- for_each f l' ;; Ok (y :: ys)
  end.

(** [np.concatenate] of a list of arrays along the first axis. *)
Definition concatenate {A : Type} (arrays : list (list A)) : result (list A) :=
  match arrays with
  | [] => Raise ValueError
  | _ :: _ => Ok (concat arrays)
  end.

(** [a.reshape(shape)] succeeds when the sizes agree; a [-1] entry is modelled
    by [reshape_infer]. *)
Definition reshape_check (size : nat) (shape : list nat) : result unit :=
  if size =? fold_right Nat.mul 1 shape then Ok tt else Raise ValueError.

(** [a.reshape(-1, k)]: the free dimension is [size / k]. *)
Definition reshape_infer (size k : nat) : result unit :=
  if (k =? 0) || negb (size mod k =? 0) then Raise ValueError else Ok tt.

(** ** Data *)

(** One row [(x, y, w, h)] of a box array. *)
Record Box : Type := mkBox { bx : Q; by_ : Q; bw : Q; bh : Q }.

Definition box0 : Box := mkBox 0%Q 0%Q 0%Q 0%Q.

(** A 4-dimensional array in NCHW layout: its shape and its elements in
    C order. *)
Record Tensor : Type := mkTensor {
  t_n : nat;
  t_c : nat;
  t_h : nat;
  t_w : nat;
  t_data : list Q
}.

(** The NumPy invariant of an array: as many elements as its shape says. *)
Definition well_shaped (t : Tensor) : Prop :=
  length (t_data t) = t_n t * t_c t * t_h t * t_w t.

(** An array of shape [(height, width, 3, 85)]: [cells] are its
    [height * width * 3] rows of 85 numbers, in C order. *)
Record Reshaped : Type := mkReshaped {
  grid_h : nat;
  grid_w : nat;
  cells : list (list Q)
}.

(** The fields set by [PostprocessYOLO.__init__].  A mask is a triple of
    indices into [anchors]; the input resolution is a pair of positive pixel
    counts in HW order. *)
Record PostprocessYOLO : Type := mkPostprocessYOLO {
  masks : list (nat * nat * nat);
  anchors : list (Q * Q);
  object_threshold : Q;
  nms_threshold : Q;
  input_resolution_yolo : positive * positive
}.

(** The three values returned by [process]; each may be [None]. *)
Definition Detections : Type :=
  (option (list Box) * option (list nat) * option (list Q))%type.

(** An image as [DarknetTRT] receives it: a NumPy array whose [shape] is
    [(height, width, channels)], as [image_preparation] unpacks it. *)
Record Image : Type := mkImage {
  shape : nat * nat * nat;
  pixels : list Q
}.

(** ** [PostprocessYOLO] *)

Section Detector.

(** [np.exp], a library function. *)
Variable np_exp : Q -> Q.

(** The order in which a [for] loop visits [set(categories)]; CPython fixes it
    by the hash table of the set. *)
Variable set_iter : list nat -> list nat.

(** The engine: the flat output arrays of a forward pass on a prepared
    image. *)
Variable do_inference : Image -> list (list Q).

Definition sigmoid (v : Q) : Q := (1 / (1 + np_exp (- v)))%Q.

(** *** [_reshape_output] *)

(** [np.transpose(output, [0, 2, 3, 1])], read in C order. *)
Definition transpose_0231 (t : Tensor) : list Q :=
  flat_map (fun n =>
    flat_map (fun h =>
      flat_map (fun w =>
        map (fun c =>
               nth (((n * t_c t + c) * t_h t + h) * t_w t + w) (t_data t) 0%Q)
            (seq 0 (t_c t)))
        (seq 0 (t_w t)))
      (seq 0 (t_h t)))
    (seq 0 (t_n t)).

(** The rows of length [k] of a flat array. *)
Fixpoint rows (count k : nat) (flat : list Q) : list (list Q) :=
  match count with
  | O => []
  | S count' => firstn k flat :: rows count' k (skipn k flat)
  end.

Definition _reshape_output (output : Tensor) : result Reshaped :=
  let height := t_h output in
  let width := t_w output in
  let dim1 := height in
  let dim2 := width in
  let dim3 := 3 in
  let dim4 := 4 + 1 + 80 in
  _ <- reshape_check (t_n output * height * width * t_c output)
                     [dim1; dim2; dim3; dim4] ;;
  Ok (mkReshaped dim1 dim2
        (rows (dim1 * dim2 * dim3) dim4 (transpose_0231 output))).

(** *** [_process_feats]

    The [numba.jit] decorator compiles the function and leaves what it
    computes unchanged. *)

(** [a.repeat(3, axis=-2)] on an array of shape [(h, w, 1, 1)]. *)
Definition repeat3 (a : list nat) : list nat :=
  flat_map (fun v => [v; v; v]) a.

(** An array of shape [(1, 1, 3, 2)] broadcast over [count] grid cells. *)
Definition broadcast_anchors (count : nat) (a : list (Q * Q)) : list (Q * Q) :=
  concat (repeat a count).

Definition of_nat (n : nat) : Q := inject_Z (Z.of_nat n).

Definition _process_feats (self : PostprocessYOLO) (output_reshaped : Reshaped)
           (mask : nat * nat * nat)
  : result (list Box * list Q * list (list Q)) :=
  let grid_h := grid_h output_reshaped in
  let grid_w := grid_w output_reshaped in
  let cells := cells output_reshaped in
  let '(m0, m1, m2) := mask in
  anchors <- for_each (fun i =>
                         match nth_error (anchors self) i with
                         | Some a => Ok a
                         | None => Raise IndexError
                         end) [m0; m1; m2] ;;
  let anchors_tensor := broadcast_anchors (grid_h * grid_w) anchors in
  let box_xy :=
    map (fun v => (sigmoid (nth 0 v 0%Q), sigmoid (nth 1 v 0%Q))) cells in
  let box_wh :=
    zip_with (fun v a => (sigmoid (nth 2 v 0%Q) * fst a,
                          sigmoid (nth 3 v 0%Q) * snd a)%Q)
             cells anchors_tensor in
  let box_confidence := map (fun v => sigmoid (nth 4 v 0%Q)) cells in
  let box_class_probs := map (fun v => map sigmoid (skipn 5 v)) cells in
  let col := concat (repeat (seq 0 grid_w) grid_w) in
  _ <- reshape_infer (length col) grid_w ;;
  let row := flat_map (fun r => repeat r grid_h) (seq 0 grid_h) in
  _ <- reshape_check (length col) [grid_h; grid_w; 1; 1] ;;
  let col := repeat3 col in
  _ <- reshape_check (length row) [grid_h; grid_w; 1; 1] ;;
  let row := repeat3 row in
  let grid := combine col row in
  let box_xy :=
    zip_with (fun p g => (fst p + of_nat (fst g), snd p + of_nat (snd g))%Q)
             box_xy grid in
  let box_xy :=
    map (fun p => (fst p / of_nat grid_w, snd p / of_nat grid_h)%Q) box_xy in
  let box_wh :=
    map (fun p => (fst p / inject_Z (Zpos (fst (input_resolution_yolo self))),
                   snd p / inject_Z (Zpos (snd (input_resolution_yolo self))))%Q)
        box_wh in
  let box_xy :=
    zip_with (fun p s => (fst p - fst s / 2, snd p - snd s / 2)%Q)
             box_xy box_wh in
  let boxes :=
    zip_with (fun p s => mkBox (fst p) (snd p) (fst s) (snd s)) box_xy box_wh in
  Ok (boxes, box_confidence, box_class_probs).

(** *** [_filter_boxes] *)

Definition _filter_boxes (self : PostprocessYOLO) (boxes : list Box)
           (box_confidences : list Q) (box_class_probs : list (list Q))
  : list Box * list nat * list Q :=
  let box_scores :=
    zip_with (fun c probs => map (Qmult c) probs)
             box_confidences box_class_probs in
  let box_classes := map argmax box_scores in
  let box_class_scores := map amax box_scores in
  let pos :=
    where_ (map (fun s => Qle_bool (object_threshold self) s)
                box_class_scores) in
  let boxes := take box0 boxes pos in
  let classes := take 0 box_classes pos in
  let scores := take 0%Q box_class_scores pos in
  (boxes, classes, scores).

(** *** [_nms_boxes] *)

(** The body of the [while] loop after [keep.append(i)]: the next value of
    [ordered]. *)
Definition suppress (self : PostprocessYOLO) (boxes : list Box)
           (ordered : list nat) : list nat :=
  let x_coord := map bx boxes in
  let y_coord := map by_ boxes in
  let width := map bw boxes in
  let height := map bh boxes in
  let areas := zip_with Qmult width height in
  match ordered with
  | [] => []
  | i :: rest =>
      let xx1 := map (Qmax (nth i x_coord 0%Q)) (take 0%Q x_coord rest) in
      let yy1 := map (Qmax (nth i y_coord 0%Q)) (take 0%Q y_coord rest) in
      let xx2 :=
        map (Qmin (nth i x_coord 0%Q + nth i width 0%Q))
            (zip_with Qplus (take 0%Q x_coord rest) (take 0%Q width rest)) in
      let yy2 :=
        map (Qmin (nth i y_coord 0%Q + nth i height 0%Q))
            (zip_with Qplus (take 0%Q y_coord rest) (take 0%Q height rest)) in
      let width1 :=
        map (Qmax 0) (map (fun d => d + 1)%Q (zip_with Qminus xx2 xx1)) in
      let height1 :=
        map (Qmax 0) (map (fun d => d + 1)%Q (zip_with Qminus yy2 yy1)) in
      let intersection := zip_with Qmult width1 height1 in
      let union :=
        zip_with Qminus
          (map (Qplus (nth i areas 0%Q)) (take 0%Q areas rest)) intersection in
      let iou := zip_with true_divide intersection union in
      let indexes :=
        where_ (map (fun v => less_equal v (nms_threshold self)) iou) in
      take 0 ordered (map S indexes)
  end.

(** The [while ordered.size > 0] loop; [fuel] bounds its iterations. *)
Fixpoint nms_loop (self : PostprocessYOLO) (boxes : list Box) (fuel : nat)
         (ordered keep : list nat) : list nat :=
  match fuel with
  | O => keep
  | S fuel' =>
      match ordered with
      | [] => keep
      | i :: _ =>
          nms_loop self boxes fuel' (suppress self boxes ordered) (keep ++ [i])
      end
  end.

(** Every iteration drops at least the head of [ordered], so its length is
    fuel enough: the loop ends because [ordered] is empty
    ([nms_loop_fuel]). *)
Definition _nms_boxes (self : PostprocessYOLO) (boxes : list Box)
           (box_confidences : list Q) : list nat :=
  let ordered := rev (argsort box_confidences) in
  nms_loop self boxes (length ordered) ordered [].

(** *** [_process_yolo_output] *)

(** Lines 314 to 324: decode and filter every scale, then concatenate. *)
Definition candidates (self : PostprocessYOLO) (outputs_reshaped : list Reshaped)
  : result (list Box * list nat * list Q) :=
  per_scale <-
    for_each (fun om : Reshaped * (nat * nat * nat) =>
                let (output, mask) := om in
                feats <- _process_feats self output mask ;;
                let '(box, category, confidence) := feats in
                Ok (_filter_boxes self box category confidence))
             (combine outputs_reshaped (masks self)) ;;
  boxes <- concatenate (map (fun r => fst (fst r)) per_scale) ;;
  categories <- concatenate (map (fun r => snd (fst r)) per_scale) ;;
  confidences <- concatenate (map (fun r => snd r) per_scale) ;;
  Ok (boxes, categories, confidences).

(** [[width, height, width, height]] of lines 327 and 328. *)
Definition image_dims (resolution_raw : Z * Z) : list Z :=
  let (width, height) := resolution_raw in
  [width; height; width; height].

(** [boxes * image_dims]: every row times the four factors. *)
Definition scale_boxes (boxes : list Box) (dims : list Z) : list Box :=
  map (fun b =>
         mkBox (bx b * inject_Z (nth 0 dims 0%Z))%Q
               (by_ b * inject_Z (nth 1 dims 0%Z))%Q
               (bw b * inject_Z (nth 2 dims 0%Z))%Q
               (bh b * inject_Z (nth 3 dims 0%Z))%Q)
      boxes.

(** One pass of the loop over [set(categories)]: the survivors of a class. *)
Definition nms_class (self : PostprocessYOLO) (boxes : list Box)
           (categories : list nat) (confidences : list Q) (category : nat)
  : list Box * list nat * list Q :=
  let idxs := where_ (map (Nat.eqb category) categories) in
  let box := take box0 boxes idxs in
  let category := take 0 categories idxs in
  let confidence := take 0%Q confidences idxs in
  let keep := _nms_boxes self box confidence in
  (take box0 box keep, take 0 category keep, take 0%Q confidence keep).

(** Lines 326 to 353: rescale, suppress per class, assemble. *)
Definition suppress_and_assemble (self : PostprocessYOLO)
           (cands : list Box * list nat * list Q) (resolution_raw : Z * Z)
  : result Detections :=
  let '(boxes, categories, confidences) := cands in
  let boxes := scale_boxes boxes (image_dims resolution_raw) in
  let per_class :=
    map (nms_class self boxes categories confidences) (set_iter categories) in
  let nms_boxes := map (fun r => fst (fst r)) per_class in
  let nms_categories := map (fun r => snd (fst r)) per_class in
  let nscores := map (fun r => snd r) per_class in
  match nms_categories, nscores with
  | [], [] => Ok (None, None, None)
  | _, _ =>
      boxes <- concatenate nms_boxes ;;
      categories <- concatenate nms_categories ;;
      confidences <- concatenate nscores ;;
      Ok (Some boxes, Some categories, Some confidences)
  end.

Definition _process_yolo_output (self : PostprocessYOLO)
           (outputs_reshaped : list Reshaped) (resolution_raw : Z * Z)
  : result Detections :=
  cands <- candidates self outputs_reshaped ;;
  suppress_and_assemble self cands resolution_raw.

(** *** [process] *)

Definition process (self : PostprocessYOLO) (outputs : list Tensor)
           (resolution_raw : Z * Z) : result Detections :=
  outputs_reshaped <- for_each _reshape_output outputs ;;
  _process_yolo_output self outputs_reshaped resolution_raw.

(** ** [DarknetTRT.__call__] *)

(** The fields of [DarknetTRT] that reach the post-processor. *)
Record DarknetTRT : Type := mkDarknetTRT {
  output_shapes : list (nat * nat * nat * nat);
  postprocessor : PostprocessYOLO
}.

(** [output.reshape(shape)] of a flat array to an NCHW shape. *)
Definition reshape_flat (output : list Q) (shape : nat * nat * nat * nat)
  : result Tensor :=
  let '(n, c, h, w) := shape in
  _ <- reshape_check (length output) [n; c; h; w] ;;
  Ok (mkTensor n c h w output).

(** [shape_orig_WH[:2]], with [shape_orig_WH = image.shape]. *)
Definition shape_orig_WH_2 (image : Image) : Z * Z :=
  let '(s0, s1, _) := shape image in
  (Z.of_nat s0, Z.of_nat s1).

(** [__call__] up to the drawing of the boxes; [image_preparation] hands the
    raw image back unchanged as [image]. *)
Definition DarknetTRT__call__ (self : DarknetTRT) (image : Image)
  : result Detections :=
  let trt_outputs := do_inference image in
  trt_outputs <-
    for_each (fun os : list Q * (nat * nat * nat * nat) =>
                let (output, shape) := os in reshape_flat output shape)
             (combine trt_outputs (output_shapes self)) ;;
  process (postprocessor self) trt_outputs (shape_orig_WH_2 image).

End Detector.

(** ** The stated geometry and scores *)

(** Overlap of two extents along one axis, with the inclusive [+ 1]. *)
Definition overlap (lo_i len_i lo_j len_j : Q) : Q :=
  Qmax 0 (Qmin (lo_i + len_i) (lo_j + len_j) - Qmax lo_i lo_j + 1).

(** Intersection over union of a kept box [i] and a candidate [j]. *)
Definition spec_iou (i j : Box) : np_float :=
  let overlap_w := overlap (bx i) (bw i) (bx j) (bw j) in
  let overlap_h := overlap (by_ i) (bh i) (by_ j) (bh j) in
  true_divide (overlap_w * overlap_h)
              (bw i * bh i + bw j * bh j - overlap_w * overlap_h).

(** [IoU(i, j) <= u] for boxes given by their index. *)
Definition iou_within (self : PostprocessYOLO) (boxes : list Box) (i j : nat)
  : bool :=
  less_equal (spec_iou (nth i boxes box0) (nth j boxes box0))
             (nms_threshold self).

(** The scores [objectness * category_probability] of one cell/anchor. *)
Definition cell_scores (box_confidences : list Q)
           (box_class_probs : list (list Q)) (p : nat) : list Q :=
  map (Qmult (nth p box_confidences 0%Q)) (nth p box_class_probs []).

(** [m] is the greatest element of [l]. *)
Definition is_max (m : Q) (l : list Q) : Prop :=
  In m l /\ Forall (fun v => (v <= m)%Q) l.

(** [c] is the first position of [l] that holds its greatest element. *)
Definition is_argmax (c : nat) (l : list Q) : Prop :=
  c < length l /\
  Forall (fun v => (v <= nth c l 0)%Q) l /\
  forall c', c' < c -> (nth c' l 0 < nth c l 0)%Q.

(** The order of [argsort]: by ascending value. *)
Definition ascending (key : list Q) (i j : nat) : Prop :=
  (nth i key 0 <= nth j key 0)%Q.

(** [keep] lists some of the indices of [ordered], in the order of
    [ordered]. *)
Definition selected_from (ordered keep : list nat) : Prop :=
  filter (fun i => existsb (Nat.eqb i) keep) ordered = keep.

(** Confidences do not increase along a list of indices. *)
Definition non_increasing (box_confidences : list Q) (keep : list nat) : Prop :=
  StronglySorted
    (fun i j => (nth j box_confidences 0 <= nth i box_confidences 0)%Q) keep.

(** The three outputs are index-aligned: all [None], or arrays of one
    length. *)
Definition aligned (r : Detections) : Prop :=
  match r with
  | (None, None, None) => True
  | (Some boxes, Some categories, Some confidences) =>
      length boxes = length categories /\
      length categories = length confidences
  | _ => False
  end.

(** Number of detections of a result; [None] holds none. *)
Definition detection_count (r : Detections) : nat :=
  match r with
  | (Some boxes, _, _) => length boxes
  | _ => 0
  end.

(** What the loop over [set(categories)] relies on: it visits the values
    that occur in [categories], and only those. *)
Definition visits_members (set_iter : list nat -> list nat) : Prop :=
  forall l c, In c (set_iter l) <-> In c l.

(** ** Sample configuration and inputs *)

(** The configuration built by [DarknetTRT.__init__] with its defaults. *)
Definition yolov3 : PostprocessYOLO :=
  mkPostprocessYOLO
    [(6, 7, 8); (3, 4, 5); (0, 1, 2)]
    [(10, 13); (16, 30); (33, 23); (30, 61); (62, 45);
     (59, 119); (116, 90); (156, 198); (373, 326)]%Q
    (6 # 10) (7 # 10) (608, 608)%positive.

(** A rational stand-in for [np.exp]: positive, increasing, [1] at [0]. *)
Definition exp_stub (v : Q) : Q :=
  if Qle_bool 0 v then (1 + v)%Q else (1 / (1 - v))%Q.

(** A set visited in the order of the last occurrences. *)
Definition last_occurrences (l : list nat) : list nat := nodup Nat.eq_dec l.

(** A [(1, 255, 1, 1)] tensor whose three anchors carry the logits [v]. *)
Definition tensor_1x1 (v0 v1 v2 : list Q) : Tensor :=
  mkTensor 1 255 1 1 (v0 ++ v1 ++ v2).

(** 85 logits: box [(tx, ty, tw, th)], objectness [o], and class logit [p]
    for category [k], [-9] for the others. *)
Definition logits (tx ty tw th o : Q) (k : nat) (p : Q) : list Q :=
  [tx; ty; tw; th; o] ++ repeat (- (9))%Q k ++ [p] ++ repeat (- (9))%Q (79 - k).

(** Three boxes of one class: the first two overlap, the third is apart. *)
Definition sample_boxes : list Box :=
  [mkBox 0 0 10 10; mkBox 1 1 10 10; mkBox 50 50 10 10]%Q.

Definition sample_confidences : list Q := [5 # 10; 9 # 10; 7 # 10]%Q.

(** Logits of a confident detection of category [k]. *)
Definition hot (k : nat) : list Q := logits 0 0 0 0 9 k 9.

(** All logits zero: every sigmoid is one half. *)
Definition quiet : list Q := repeat 0%Q 85.

(** Two tensors for the three masks of [yolov3]. *)
Definition two_scales : list Tensor :=
  [tensor_1x1 (hot 3) quiet quiet; tensor_1x1 quiet quiet quiet].

(** Three tensors without any confident cell, and their reshaped form. *)
Definition quiet_scales : list Tensor :=
  [tensor_1x1 quiet quiet quiet; tensor_1x1 quiet quiet quiet;
   tensor_1x1 quiet quiet quiet].

Definition quiet_reshaped : list Reshaped :=
  [mkReshaped 1 1 [quiet; quiet; quiet]; mkReshaped 1 1 [quiet; quiet; quiet];
   mkReshaped 1 1 [quiet; quiet; quiet]].

(** A tensor with 254 channels. *)
Definition short_tensor : Tensor := mkTensor 1 254 1 1 (repeat 0%Q 254).

(** Three cells with two categories each. *)
Definition sample_objectness : list Q := [9 # 10; 5 # 10; 8 # 10]%Q.

Definition sample_class_probs : list (list Q) :=
  [[2 # 10; 9 # 10]; [9 # 10; 9 # 10]; [8 # 10; 8 # 10]]%Q.

(** ** Further notions *)

(** The three indices of a mask lie within [anchors]. *)
Definition mask_in_range (self : PostprocessYOLO) (mask : nat * nat * nat) : Prop :=
  let '(m0, m1, m2) := mask in
  Forall (fun m => m < length (anchors self)) [m0; m1; m2].

(** The box decoded from the 85 numbers [v] of the cell in row [row] and
    column [col] for one anchor: sigmoid offsets inside the cell, sigmoid
    sizes times the anchor, the size divided by the input resolution, the
    origin moved from the centre to the corner. *)
Definition decode_cell (np_exp : Q -> Q) (self : PostprocessYOLO)
           (anchor : Q * Q) (grid_h grid_w row col : nat) (v : list Q) : Box :=
  let w := (sigmoid np_exp (nth 2 v 0) * fst anchor
            / inject_Z (Zpos (fst (input_resolution_yolo self))))%Q in
  let h := (sigmoid np_exp (nth 3 v 0) * snd anchor
            / inject_Z (Zpos (snd (input_resolution_yolo self))))%Q in
  mkBox ((sigmoid np_exp (nth 0 v 0) + of_nat col) / of_nat grid_w - w / 2)%Q
        ((sigmoid np_exp (nth 1 v 0) + of_nat row) / of_nat grid_h - h / 2)%Q
        w h.

(** The body of the loop over the scales: decode, then filter. *)
Definition decode_and_filter (np_exp : Q -> Q) (self : PostprocessYOLO)
           (om : Reshaped * (nat * nat * nat))
  : result (list Box * list nat * list Q) :=
  let (output, mask) := om in
  feats <- _process_feats np_exp self output mask ;;
  let '(box, category, confidence) := feats in
  Ok (_filter_boxes self box category confidence).

(** The object built by [DarknetTRT.__init__]: the output shapes and the
    masks and anchors are fixed, the thresholds and the input resolution are
    its arguments. *)
Definition DarknetTRT__init__ (obj_threshold nms_threshold : Q) (h w : positive)
  : DarknetTRT :=
  mkDarknetTRT
    [(1, 255, 19, 19); (1, 255, 38, 38); (1, 255, 76, 76)]
    (mkPostprocessYOLO
       [(6, 7, 8); (3, 4, 5); (0, 1, 2)]
       [(10, 13); (16, 30); (33, 23); (30, 61); (62, 45);
        (59, 119); (116, 90); (156, 198); (373, 326)]%Q
       obj_threshold nms_threshold (h, w)).

(** The detections of a result as triples of box, class and confidence. *)
Definition triples (r : Detections) : list (Box * nat * Q) :=
  match r with
  | (Some boxes, Some classes, Some scores) =>
      combine (combine boxes classes) scores
  | _ => []
  end.

(** ** [DarknetTRT.draw_bboxes] *)

(** A call on the [ImageDraw] object: a rectangle by its corners, or the
    label of a box, the category name and the score, at a position. *)
Inductive draw_call : Type :=
| rectangle (left top right bottom : Z)
| text (x y : Z) (name : String.string) (score : Q).

(** [np.floor(v + 0.5).astype(int)]. *)
Definition round_half_up (v : Q) : Z := Qfloor (v + (1 # 2)).

(** The body of the loop over the detections. *)
Definition draw_box (image_raw : Image) (all_categories : list String.string)
           (box : Box) (score : Q) (category : nat) : result (list draw_call) :=
  let '(shape0, shape1, _) := shape image_raw in
  let left := Z.max 0 (round_half_up (bx box)) in
  let top := Z.max 0 (round_half_up (by_ box)) in
  let right := Z.min (Z.of_nat shape1) (round_half_up (bx box + bw box)) in
  let bottom := Z.min (Z.of_nat shape0) (round_half_up (by_ box + bh box)) in
  match nth_error all_categories category with
  | Some name =>
      Ok [rectangle left top right bottom; text left (top - 12) name score]
  | None => Raise IndexError
  end.

(** The calls that [draw_bboxes] makes on its [ImageDraw] object.  [bboxes]
    is [None] when nothing was detected; the array that the function returns
    is left out. *)
Definition draw_bboxes (image_raw : Image) (bboxes : option (list Box))
           (confidences : list Q) (categories : list nat)
           (all_categories : list String.string) : result (list draw_call) :=
  match bboxes with
  | None => Ok []
  | Some bboxes =>
      calls <- for_each (fun bsc : Box * Q * nat =>
                           let '(box, score, category) := bsc in
                           draw_box image_raw all_categories box score category)
                        (combine (combine bboxes confidences) categories) ;;
      Ok (concat calls)
  end.

(** [draw_bboxes(image, boxes, scores, classes, self.all_categories)] on the
    three values returned by [process], as [__call__] does when [show_image]
    is set. *)
Definition draw_detections (image : Image) (r : Detections)
           (all_categories : list String.string) : result (list draw_call) :=
  let '(boxes, classes, scores) := r in
  draw_bboxes image boxes
              (match scores with Some s => s | None => [] end)
              (match classes with Some c => c | None => [] end)
              all_categories.

(** ** [DarknetTRT.image_preparation]

    The part that maintains [self.padded_image]; the resize by OpenCV that
    follows is left out. *)

Module Preparation.

(** What the function can raise: [self.padded_image] is not set by
    [__init__], and an assignment whose shapes do not broadcast fails. *)
Inductive raised : Type :=
| AttributeError
| ValueError.

(** An array of shape [(side, side, depth)], as rows of pixels. *)
Record Buffer : Type := mkBuffer {
  side : nat;
  depth : nat;
  content : list (list (list Q))
}.

(** The fields [h], [w] and [padded_image] of [DarknetTRT]. *)
Record State : Type := mkState {
  h : nat;
  w : nat;
  padded_image : option Buffer
}.

(** The state left by [__init__]. *)
Definition initial : State := mkState 0 0 None.

(** The rows of pixels of an image of shape [(height, width, channels)]. *)
Definition image_rows (image : Image) : list (list (list Q)) :=
  let '(height, width, channels) := shape image in
  map (rows width channels) (rows height (width * channels) (pixels image)).

(** [np.zeros((side, side, channels))]. *)
Definition zeros (side channels : nat) : Buffer :=
  mkBuffer side channels (repeat (repeat (repeat 0%Q channels) side) side).

(** One axis of a broadcast: a length that fits, or 1. *)
Definition fits (value target : nat) : bool :=
  (value =? target) || (value =? 1).

(** An axis of length 1 stretched to [n]. *)
Definition stretch {A : Type} (n : nat) (l : list A) : list A :=
  if length l =? n then l
  else match l with
       | x :: _ => repeat x n
       | [] => []
       end.

(** The value of an assignment broadcast to [(n0, n1, n2)]. *)
Definition broadcast (n0 n1 n2 : nat) (value : list (list (list Q)))
  : list (list (list Q)) :=
  stretch n0 (map (fun row => stretch n1 (map (stretch n2) row)) value).

(** The length of the slice [a:b] of an axis of length [n]. *)
Definition slice_length (a b n : nat) : nat := Nat.min b n - Nat.min a n.

(** [buffer[a:b, :, :] = value] for an image [value]. *)
Definition assign_rows (buffer : Buffer) (a b : nat) (value : Image)
  : option Buffer :=
  let '(height, width, channels) := shape value in
  let n := slice_length a b (side buffer) in
  if fits height n && fits width (side buffer) && fits channels (depth buffer)
  then Some (mkBuffer (side buffer) (depth buffer)
               (firstn a (content buffer)
                ++ broadcast n (side buffer) (depth buffer) (image_rows value)
                ++ skipn (a + n) (content buffer)))
  else None.

(** [buffer[:, a:b, :] = value] for an image [value]. *)
Definition assign_columns (buffer : Buffer) (a b : nat) (value : Image)
  : option Buffer :=
  let '(height, width, channels) := shape value in
  let n := slice_length a b (side buffer) in
  if fits height (side buffer) && fits width n && fits channels (depth buffer)
  then Some (mkBuffer (side buffer) (depth buffer)
               (zip_with (fun row new => firstn a row ++ new ++ skipn (a + n) row)
                  (content buffer)
                  (broadcast (side buffer) n (depth buffer) (image_rows value))))
  else None.

(** The state after [image_preparation(img_raw)], and what it raised. *)
Definition image_preparation (self : State) (img_raw : Image)
  : State * option raised :=
  let '(height, width, channels) := shape img_raw in
  let self :=
    if negb (height =? h self) || negb (width =? w self)
    then mkState height width
                 (Some (zeros (Nat.max height width) channels))
    else self in
  match padded_image self with
  | None => (self, Some AttributeError)
  | Some buffer =>
      let assigned :=
        if h self <? w self
        then assign_rows buffer ((w self - h self) / 2)
                         (h self + (w self - h self) / 2) img_raw
        else assign_columns buffer ((h self - w self) / 2)
                            (w self + (h self - w self) / 2) img_raw in
      match assigned with
      | Some buffer' => (mkState (h self) (w self) (Some buffer'), None)
      | None => (self, Some ValueError)
      end
  end.

(** The frames of a stream, one call after the other; an exception ends
    it. *)
Fixpoint prepare_all (self : State) (frames : list Image)
  : State * option raised :=
  match frames with
  | [] => (self, None)
  | frame :: frames' =>
      match image_preparation self frame with
      | (self', None) => prepare_all self' frames'
      | failed => failed
      end
  end.

(** An image padded to a square with zeros, the image in the middle. *)
Definition letterbox (image : Image) : Buffer :=
  let '(height, width, channels) := shape image in
  let zero := repeat 0%Q channels in
  if height <? width then
    let top := (width - height) / 2 in
    mkBuffer width channels
      (repeat (repeat zero width) top
       ++ image_rows image
       ++ repeat (repeat zero width) (width - height - top))
  else
    let left := (height - width) / 2 in
    mkBuffer height channels
      (map (fun row => repeat zero left ++ row
                       ++ repeat zero (height - width - left))
           (image_rows image)).

(** The NumPy invariant of an image: as many numbers as its shape says. *)
Definition well_formed (image : Image) : Prop :=
  let '(height, width, channels) := shape image in
  length (pixels image) = height * width * channels.

End Preparation.

(** ** Further samples *)

(** One grid cell whose first anchor detects category 3. *)
Definition hot_reshaped : Reshaped := mkReshaped 1 1 [hot 3; quiet; quiet].

(** A tensor over a grid of one row and two columns. *)
Definition oblong_tensor : Tensor := mkTensor 1 255 1 2 (repeat 0%Q 510).

(** Two boxes far from each other. *)
Definition apart_boxes : list Box := [mkBox 0 0 10 10; mkBox 50 50 10 10]%Q.

Definition apart_confidences : list Q := [5 # 10; 7 # 10]%Q.

(** The classes of a set visited the other way round. *)
Definition reverse_order (l : list nat) : list nat := rev (last_occurrences l).

(** Flat outputs of the sizes of the three YOLOv3 scales. *)
Definition engine_outputs : list (list Q) :=
  [repeat 0%Q (1 * 255 * 19 * 19); repeat 0%Q (1 * 255 * 38 * 38);
   repeat 0%Q (1 * 255 * 76 * 76)].

(** A black image of 20 by 20 pixels, and a file of 80 labels. *)
Definition small_image : Image := mkImage (20, 20, 1) (repeat 0%Q 400).

Definition labels : list String.string := repeat "object"%string 80.

(** Frames of one and of two channels. *)
Definition wide_frame : Image := mkImage (1, 3, 1) [1; 2; 3]%Q.

Definition tall_frame : Image := mkImage (2, 1, 1) [4; 5]%Q.

Definition empty_frame : Image := mkImage (0, 0, 3) [].

Definition deep_frame : Image := mkImage (1, 3, 2) [1; 2; 3; 4; 5; 6]%Q.

(** ** Facts about the NumPy primitives *)

Lemma zip_with_map {A B C D : Type} (f : B -> C -> D) (g : A -> B) (h : A -> C)
      (l : list A) :
  zip_with f (map g l) (map h l) = map (fun x => f (g x) (h x)) l.
Proof. induction l as [|x l IH]; simpl; [reflexivity | now rewrite IH]. Qed.

Lemma take_length {A : Type} (d : A) (a : list A) (idx : list nat) :
  length (take d a idx) = length idx.
Proof. apply length_map. Qed.

Lemma take_cons_S {A : Type} (d x : A) (a : list A) (idx : list nat) :
  take d (x :: a) (map S idx) = take d a idx.
Proof. unfold take; rewrite map_map; reflexivity. Qed.

Lemma where_from_shift (k : nat) (m : list bool) :
  where_from (S k) m = map S (where_from k m).
Proof.
  revert k; induction m as [|b m IH]; intro k; simpl; [reflexivity|].
  destruct b; simpl; now rewrite IH.
Qed.

Lemma take_where_filter {A : Type} (d : A) (p : A -> bool) (l : list A) :
  take d l (where_ (map p l)) = filter p l.
Proof.
  unfold where_; induction l as [|x l IH]; simpl; [reflexivity|].
  rewrite where_from_shift.
  destruct (p x); simpl; rewrite take_cons_S, IH; reflexivity.
Qed.

Lemma where_from_bound (k : nat) (m : list bool) :
  Forall (fun i => k <= i < k + length m) (where_from k m).
Proof.
  revert k; induction m as [|b m IH]; intro k; simpl; [constructor|].
  assert (H : Forall (fun i => k <= i < k + S (length m)) (where_from (S k) m)).
  { eapply Forall_impl; [|apply IH]. simpl; intros; lia. }
  destruct b; [constructor; [lia | exact H] | exact H].
Qed.

(** The division and comparison of [suppress] respect equality of rationals. *)
Lemma less_equal_true_divide_compat (a a' b b' t : Q) :
  (a == a')%Q -> (b == b')%Q ->
  less_equal (true_divide a b) t = less_equal (true_divide a' b') t.
Proof.
  intros Ha Hb. unfold true_divide.
  rewrite (Qeqb_comp _ _ Hb 0%Q 0%Q (Qeq_refl 0)).
  destruct (Qeq_bool b' 0).
  - rewrite (Qcompare_comp _ _ Ha 0%Q 0%Q (Qeq_refl 0)). reflexivity.
  - simpl. apply Qleb_comp; [now rewrite Ha, Hb | reflexivity].
Qed.

(** ** The suppression step *)

Lemma nth_column (f : Box -> Q) (boxes : list Box) (i : nat) :
  f box0 = 0%Q -> nth i (map f boxes) 0%Q = f (nth i boxes box0).
Proof. intro H; rewrite <- H; apply map_nth. Qed.

Lemma nth_areas (boxes : list Box) (i : nat) :
  nth i (zip_with Qmult (map bw boxes) (map bh boxes)) 0%Q
  = (bw (nth i boxes box0) * bh (nth i boxes box0))%Q.
Proof.
  rewrite zip_with_map.
  apply (nth_column (fun x => bw x * bh x)%Q); reflexivity.
Qed.

Lemma suppress_filter (self : PostprocessYOLO) (boxes : list Box) (i : nat)
      (rest : list nat) :
  suppress self boxes (i :: rest) = filter (iou_within self boxes i) rest.
Proof.
  unfold suppress. cbv zeta. rewrite take_cons_S.
  rewrite <- (take_where_filter 0 (iou_within self boxes i) rest).
  f_equal. f_equal.
  rewrite nth_areas.
  unfold take.
  repeat (rewrite ?zip_with_map, ?map_map).
  apply map_ext; intro j.
  unfold iou_within, spec_iou, overlap.
  rewrite (nth_column (fun x => bw x * bh x)%Q) by reflexivity.
  rewrite !(nth_column bx), !(nth_column by_), !(nth_column bw),
    !(nth_column bh) by reflexivity.
  reflexivity.
Qed.

Lemma less_equal_true_iff (v : np_float) (t : Q) :
  less_equal v t = true <->
  v = NegInf \/ exists q, v = Finite q /\ (q <= t)%Q.
Proof.
  destruct v as [q| | |]; simpl; split.
  - intro H; right; exists q; split; [reflexivity | now apply Qle_bool_iff].
  - intros [H|[q' [H Hq]]]; [discriminate|]. injection H as ->.
    now apply Qle_bool_iff.
  - discriminate.
  - intros [H|[q' [H _]]]; discriminate.
  - now left.
  - reflexivity.
  - discriminate.
  - intros [H|[q' [H _]]]; discriminate.
Qed.

(** C3.  One iteration of the suppression loop: against the box [i] just
    kept, every remaining candidate [j] gets the overlap
    [max(0, min(x_i + w_i, x_j + w_j) - max(x_i, x_j) + 1)] along x, the same
    along y, and [IoU = overlap_w * overlap_h / (area_i + area_j - overlap_w *
    overlap_h)] with [area = w * h]; [j] stays in the active order exactly
    when [IoU <= nms_threshold], so a candidate whose IoU equals the
    threshold stays. *)
Theorem suppress_keeps_iff_iou_within_threshold
        (self : PostprocessYOLO) (boxes : list Box) (i : nat) (rest : list nat) :
  suppress self boxes (i :: rest)
  = filter (fun j =>
              less_equal (spec_iou (nth i boxes box0) (nth j boxes box0))
                         (nms_threshold self)) rest
  /\ (forall j,
         In j (suppress self boxes (i :: rest)) <->
         In j rest /\
         (spec_iou (nth i boxes box0) (nth j boxes box0) = NegInf \/
          exists q, spec_iou (nth i boxes box0) (nth j boxes box0) = Finite q
                    /\ (q <= nms_threshold self)%Q))
  /\ (forall j,
         In j rest ->
         spec_iou (nth i boxes box0) (nth j boxes box0)
         = Finite (nms_threshold self) ->
         In j (suppress self boxes (i :: rest)))
  /\ (forall bi bj,
         spec_iou bi bj =
         let overlap_w :=
           Qmax 0 (Qmin (bx bi + bw bi) (bx bj + bw bj) - Qmax (bx bi) (bx bj) + 1) in
         let overlap_h :=
           Qmax 0 (Qmin (by_ bi + bh bi) (by_ bj + bh bj) - Qmax (by_ bi) (by_ bj) + 1) in
         true_divide (overlap_w * overlap_h)
                     (bw bi * bh bi + bw bj * bh bj - overlap_w * overlap_h)).
Proof.
  assert (E := suppress_filter self boxes i rest). unfold iou_within in E.
  split; [exact E|]. split; [|split].
  - intro j. rewrite E, filter_In, less_equal_true_iff. reflexivity.
  - intros j Hj Hq. rewrite E, filter_In. split; [exact Hj|].
    rewrite Hq. simpl. apply Qle_bool_iff, Qle_refl.
  - reflexivity.
Qed.

(** ** The suppression loop *)

Section Loop.
Variable self : PostprocessYOLO.
Variable boxes : list Box.

Lemma nms_loop_keep (fuel : nat) (ordered keep : list nat) :
  nms_loop self boxes fuel ordered keep
  = keep ++ nms_loop self boxes fuel ordered [].
Proof.
  revert ordered keep; induction fuel as [|fuel IH]; intros ordered keep; simpl.
  - now rewrite app_nil_r.
  - destruct ordered as [|i rest]; [now rewrite app_nil_r|].
    rewrite IH, (IH _ [i]), <- app_assoc. reflexivity.
Qed.

Lemma nms_loop_cons (fuel i : nat) (rest : list nat) :
  nms_loop self boxes (S fuel) (i :: rest) []
  = i :: nms_loop self boxes fuel (filter (iou_within self boxes i) rest) [].
Proof.
  cbn [nms_loop]. rewrite nms_loop_keep, suppress_filter. reflexivity.
Qed.

Lemma filter_length_le {A : Type} (p : A -> bool) (l : list A) :
  length (filter p l) <= length l.
Proof. induction l as [|x l IH]; simpl; [lia | destruct (p x); simpl; lia]. Qed.

(** With [length ordered] iterations the loop has emptied [ordered]: more
    fuel changes nothing. *)
Lemma nms_loop_fuel (fuel : nat) (ordered : list nat) :
  length ordered <= fuel ->
  nms_loop self boxes fuel ordered []
  = nms_loop self boxes (length ordered) ordered [].
Proof.
  remember (length ordered) as n eqn:En.
  revert ordered En fuel.
  induction n as [n IH] using lt_wf_ind; intros ordered En fuel Hle.
  destruct ordered as [|i rest]; simpl in En; subst n.
  - destruct fuel; reflexivity.
  - destruct fuel as [|fuel]; [lia|].
    rewrite !nms_loop_cons. f_equal.
    pose proof (filter_length_le (iou_within self boxes i) rest) as Hf.
    rewrite (IH (length (filter (iou_within self boxes i) rest))
                ltac:(lia) _ eq_refl fuel ltac:(lia)).
    rewrite (IH (length (filter (iou_within self boxes i) rest))
                ltac:(lia) _ eq_refl (length rest) ltac:(lia)).
    reflexivity.
Qed.

Lemma nms_loop_incl (fuel : nat) (ordered : list nat) :
  incl (nms_loop self boxes fuel ordered []) ordered.
Proof.
  revert ordered; induction fuel as [|fuel IH]; intros ordered j Hj.
  - destruct Hj.
  - destruct ordered as [|i rest]; [destruct Hj|].
    rewrite nms_loop_cons in Hj. destruct Hj as [<-|Hj]; [now left|].
    right. apply IH in Hj. apply filter_In in Hj. tauto.
Qed.

Lemma nms_loop_within (fuel i : nat) (rest : list nat) :
  Forall (fun j => iou_within self boxes i j = true)
         (nms_loop self boxes fuel (filter (iou_within self boxes i) rest) []).
Proof.
  apply Forall_forall; intros j Hj.
  apply nms_loop_incl, filter_In in Hj. tauto.
Qed.

Lemma nms_loop_pairs (fuel : nat) (ordered : list nat) :
  ForallOrdPairs (fun i j => iou_within self boxes i j = true)
                 (nms_loop self boxes fuel ordered []).
Proof.
  revert ordered; induction fuel as [|fuel IH]; intro ordered.
  - constructor.
  - destruct ordered as [|i rest]; [constructor|].
    rewrite nms_loop_cons. constructor; [apply nms_loop_within | apply IH].
Qed.

Lemma StronglySorted_filter {A : Type} (R : A -> A -> Prop) (p : A -> bool)
      (l : list A) :
  StronglySorted R l -> StronglySorted R (filter p l).
Proof.
  induction 1 as [|x l Hs IH Hx]; simpl; [constructor|].
  destruct (p x); [|exact IH].
  constructor; [exact IH|].
  apply Forall_forall; intros y Hy. apply filter_In in Hy.
  rewrite Forall_forall in Hx. now apply Hx.
Qed.

Lemma nms_loop_sorted (R : nat -> nat -> Prop) (fuel : nat) (ordered : list nat) :
  StronglySorted R ordered ->
  StronglySorted R (nms_loop self boxes fuel ordered []).
Proof.
  revert ordered; induction fuel as [|fuel IH]; intros ordered Hs.
  - constructor.
  - destruct ordered as [|i rest]; [constructor|].
    rewrite nms_loop_cons. inversion Hs as [|? ? Hrest Hi]; subst.
    constructor.
    + apply IH, StronglySorted_filter, Hrest.
    + apply Forall_forall; intros j Hj.
      apply nms_loop_incl, filter_In in Hj.
      rewrite Forall_forall in Hi. now apply Hi.
Qed.

Lemma nms_loop_NoDup (fuel : nat) (ordered : list nat) :
  NoDup ordered -> NoDup (nms_loop self boxes fuel ordered []).
Proof.
  revert ordered; induction fuel as [|fuel IH]; intros ordered Hn.
  - constructor.
  - destruct ordered as [|i rest]; [constructor|].
    rewrite nms_loop_cons. inversion Hn as [|? ? Hi Hrest]; subst.
    constructor.
    + intro Hj. apply nms_loop_incl, filter_In in Hj. tauto.
    + apply IH, NoDup_filter, Hrest.
Qed.

Lemma filter_twice {A : Type} (p q : A -> bool) (l : list A) :
  filter q (filter p l) = filter (fun x => p x && q x) l.
Proof.
  induction l as [|x l IH]; simpl; [reflexivity|].
  destruct (p x); simpl; [destruct (q x)|]; now rewrite IH.
Qed.

Lemma existsb_eqb_In (i : nat) (l : list nat) :
  existsb (Nat.eqb i) l = true <-> In i l.
Proof.
  rewrite existsb_exists. split.
  - intros [j [Hj E]]. apply Nat.eqb_eq in E. now subst.
  - intro H. exists i. split; [exact H | apply Nat.eqb_refl].
Qed.

(** The loop selects along [ordered]: what it keeps is [ordered] restricted
    to the kept indices. *)
Lemma nms_loop_selected (fuel : nat) (ordered : list nat) :
  NoDup ordered -> length ordered <= fuel ->
  selected_from ordered (nms_loop self boxes fuel ordered []).
Proof.
  unfold selected_from.
  revert ordered; induction fuel as [|fuel IH]; intros ordered Hn Hlen.
  - destruct ordered; [reflexivity | simpl in Hlen; lia].
  - destruct ordered as [|i rest]; [reflexivity|].
    rewrite nms_loop_cons. inversion Hn as [|? ? Hi Hrest]; subst.
    set (p := iou_within self boxes i).
    set (k := nms_loop self boxes fuel (filter p rest) []).
    cbn [filter existsb]. rewrite Nat.eqb_refl. cbn [orb]. f_equal.
    assert (Hk : filter (fun j => existsb (Nat.eqb j) k) (filter p rest) = k).
    { apply IH; [now apply NoDup_filter|].
      pose proof (filter_length_le p rest). simpl in Hlen. lia. }
    etransitivity; [|exact Hk]. rewrite filter_twice.
    apply filter_ext_in; intros j Hj.
    assert (Hij : (j =? i) = false) by (apply Nat.eqb_neq; congruence).
    rewrite Hij. cbn [orb].
    destruct (existsb (Nat.eqb j) k) eqn:E; [|now rewrite andb_false_r].
    apply existsb_eqb_In in E. apply nms_loop_incl, filter_In in E.
    destruct E as [_ E]. rewrite E. reflexivity.
Qed.

End Loop.

(** ** [argsort] *)

Lemma insert_index_perm (key : list Q) (i : nat) (l : list nat) :
  Permutation (insert_index key i l) (i :: l).
Proof.
  induction l as [|j l IH]; simpl; [reflexivity|].
  destruct (Qle_bool _ _); [reflexivity|].
  rewrite IH. apply perm_swap.
Qed.

Lemma argsort_perm (a : list Q) : Permutation (argsort a) (seq 0 (length a)).
Proof.
  unfold argsort. induction (seq 0 (length a)) as [|i l IH]; simpl.
  - reflexivity.
  - rewrite insert_index_perm. now constructor.
Qed.

Lemma insert_index_sorted (key : list Q) (i : nat) (l : list nat) :
  StronglySorted (ascending key) l ->
  StronglySorted (ascending key) (insert_index key i l).
Proof.
  induction 1 as [|j l Hs IH Hj]; simpl.
  - constructor; constructor.
  - destruct (Qle_bool (nth i key 0%Q) (nth j key 0%Q)) eqn:E.
    + apply Qle_bool_iff in E.
      constructor; [now constructor|].
      constructor; [exact E|].
      eapply Forall_impl; [|exact Hj].
      intros k Hk. unfold ascending in *. eapply Qle_trans; eassumption.
    + constructor; [exact IH|].
      apply Forall_forall; intros k Hk.
      apply (Permutation_in _ (insert_index_perm key i l)) in Hk.
      destruct Hk as [<-|Hk].
      * unfold ascending. apply Qlt_le_weak, Qnot_le_lt.
        intro H. apply Qle_bool_iff in H. congruence.
      * rewrite Forall_forall in Hj. now apply Hj.
Qed.

Lemma argsort_sorted (a : list Q) : StronglySorted (ascending a) (argsort a).
Proof.
  unfold argsort. induction (seq 0 (length a)) as [|i l IH]; simpl.
  - constructor.
  - now apply insert_index_sorted.
Qed.

Lemma StronglySorted_snoc {A : Type} (R : A -> A -> Prop) (l : list A) (x : A) :
  StronglySorted R l -> Forall (fun y => R y x) l ->
  StronglySorted R (l ++ [x]).
Proof.
  induction 1 as [|y l Hs IH Hy]; intro Hx; simpl.
  - constructor; constructor.
  - inversion Hx; subst. constructor; [now apply IH|].
    apply Forall_app; split; [exact Hy | now constructor].
Qed.

Lemma StronglySorted_rev {A : Type} (R : A -> A -> Prop) (l : list A) :
  StronglySorted R l -> StronglySorted (fun x y => R y x) (rev l).
Proof.
  induction 1 as [|x l Hs IH Hx]; simpl; [constructor|].
  apply StronglySorted_snoc; [exact IH|].
  apply Forall_forall; intros y Hy. apply in_rev in Hy.
  rewrite Forall_forall in Hx. now apply Hx.
Qed.

(** [ordered], the indices by descending confidence. *)
Lemma ordered_sorted (a : list Q) : non_increasing a (rev (argsort a)).
Proof. apply (StronglySorted_rev (ascending a)), argsort_sorted. Qed.

Lemma ordered_perm (a : list Q) :
  Permutation (rev (argsort a)) (seq 0 (length a)).
Proof. rewrite <- Permutation_rev. apply argsort_perm. Qed.

Lemma ordered_In (a : list Q) (i : nat) :
  In i (rev (argsort a)) <-> i < length a.
Proof.
  split; intro H.
  - apply (Permutation_in _ (ordered_perm a)), in_seq in H. lia.
  - apply (Permutation_in _ (Permutation_sym (ordered_perm a))), in_seq. lia.
Qed.

Lemma ordered_NoDup (a : list Q) : NoDup (rev (argsort a)).
Proof.
  apply (Permutation_NoDup (Permutation_sym (ordered_perm a))), seq_NoDup.
Qed.

(** ** Symmetry of the overlap measure *)

Lemma overlap_sym (a la b lb : Q) : (overlap a la b lb == overlap b lb a la)%Q.
Proof.
  unfold overlap.
  rewrite (Q.min_comm (a + la) (b + lb)), (Q.max_comm a b). reflexivity.
Qed.

Lemma iou_within_sym (self : PostprocessYOLO) (boxes : list Box) (i j : nat) :
  iou_within self boxes i j = iou_within self boxes j i.
Proof.
  unfold iou_within, spec_iou.
  set (bi := nth i boxes box0). set (bj := nth j boxes box0).
  assert (Hw := overlap_sym (bx bi) (bw bi) (bx bj) (bw bj)).
  assert (Hh := overlap_sym (by_ bi) (bh bi) (by_ bj) (bh bj)).
  apply less_equal_true_divide_compat.
  - now rewrite Hw, Hh.
  - rewrite Hw, Hh. ring.
Qed.

(** C2.  Any two distinct boxes kept by the suppression of one class have an
    IoU, taken with the inclusive [+ 1] overlap, of at most
    [nms_threshold]. *)
Theorem nms_kept_pairs_within_threshold
        (self : PostprocessYOLO) (boxes : list Box) (box_confidences : list Q)
        (i j : nat) :
  In i (_nms_boxes self boxes box_confidences) ->
  In j (_nms_boxes self boxes box_confidences) ->
  i <> j ->
  less_equal (spec_iou (nth i boxes box0) (nth j boxes box0))
             (nms_threshold self) = true.
Proof.
  intros Hi Hj Hne. unfold _nms_boxes in Hi, Hj. cbv zeta in Hi, Hj.
  pose proof (nms_loop_pairs self boxes (length (rev (argsort box_confidences)))
                             (rev (argsort box_confidences))) as Hp.
  destruct (ForallOrdPairs_In Hp _ _ Hi Hj) as [H|[H|H]].
  - contradiction.
  - exact H.
  - rewrite iou_within_sym in H. exact H.
Qed.

Lemma _nms_boxes_lt (self : PostprocessYOLO) (boxes : list Box)
      (box_confidences : list Q) :
  Forall (fun i => i < length box_confidences)
         (_nms_boxes self boxes box_confidences).
Proof.
  unfold _nms_boxes; cbv zeta.
  apply Forall_forall; intros i Hi.
  apply nms_loop_incl in Hi. now apply ordered_In.
Qed.

(** C4.  The keep list holds indices of the group handed in, each once, in
    the order of their selection, which is the order of descending
    confidence [ordered]; the confidences do not increase along it. *)
Theorem nms_keep_order_non_increasing
        (self : PostprocessYOLO) (boxes : list Box) (box_confidences : list Q) :
  Forall (fun i => i < length box_confidences)
         (_nms_boxes self boxes box_confidences)
  /\ NoDup (_nms_boxes self boxes box_confidences)
  /\ selected_from (rev (argsort box_confidences))
                   (_nms_boxes self boxes box_confidences)
  /\ non_increasing box_confidences (_nms_boxes self boxes box_confidences).
Proof.
  split; [apply _nms_boxes_lt|].
  unfold _nms_boxes; cbv zeta. split; [|split].
  - apply nms_loop_NoDup, ordered_NoDup.
  - apply nms_loop_selected; [apply ordered_NoDup | lia].
  - apply nms_loop_sorted, ordered_sorted.
Qed.

Lemma nms_head_is_best (self : PostprocessYOLO) (boxes : list Box)
      (box_confidences : list Q) :
  box_confidences <> [] ->
  exists i rest,
    _nms_boxes self boxes box_confidences = i :: rest /\
    i < length box_confidences /\
    forall j, j < length box_confidences ->
              (nth j box_confidences 0 <= nth i box_confidences 0)%Q.
Proof.
  intro Hne. unfold _nms_boxes; cbv zeta.
  pose proof (ordered_sorted box_confidences) as Hs.
  pose proof (ordered_In box_confidences) as Hin.
  destruct (rev (argsort box_confidences)) as [|i rest] eqn:E.
  - destruct box_confidences as [|c l]; [congruence|].
    exfalso. apply (proj2 (Hin 0)). simpl; lia.
  - exists i, (nms_loop self boxes (length rest)
                        (filter (iou_within self boxes i) rest) []).
    split; [apply nms_loop_cons|]. split; [apply Hin; now left|].
    intros j Hj. apply Hin in Hj. destruct Hj as [<-|Hj]; [apply Qle_refl|].
    inversion Hs as [|? ? _ Hall]; subst.
    rewrite Forall_forall in Hall. now apply Hall.
Qed.

(** ** [amax] and [argmax] *)

Lemma Qmax_keep (best x : Q) : Qle_bool x best = true -> Qmax best x = best.
Proof.
  intro H. apply Qle_bool_iff in H.
  unfold Qmax, GenericMinMax.gmax.
  destruct (best ?= x)%Q eqn:E; try reflexivity.
  apply Qlt_alt in E. exfalso. eapply Qlt_not_le; eassumption.
Qed.

Lemma Qmax_replace (best x : Q) : Qle_bool x best = false -> Qmax best x = x.
Proof.
  intro H. unfold Qmax, GenericMinMax.gmax.
  destruct (best ?= x)%Q eqn:E; try reflexivity; exfalso.
  - apply Qeq_alt in E.
    assert (Qle_bool x best = true) by (apply Qle_bool_iff; rewrite E; apply Qle_refl).
    congruence.
  - apply Qgt_alt in E.
    assert (Qle_bool x best = true) by (apply Qle_bool_iff, Qlt_le_weak, E).
    congruence.
Qed.

Lemma Qle_bool_false_lt (x best : Q) : Qle_bool x best = false -> (best < x)%Q.
Proof.
  intro H. apply Qnot_le_lt. intro Hle. apply Qle_bool_iff in Hle. congruence.
Qed.

(** The scan of [argmax] over [pre ++ l], having seen [pre]. *)
Lemma argmax_from_scan (pre l : list Q) (best_i : nat) :
  best_i < length pre ->
  Forall (fun v => (v <= nth best_i pre 0)%Q) pre ->
  (forall c', c' < best_i -> (nth c' pre 0 < nth best_i pre 0)%Q) ->
  let c := argmax_from best_i (nth best_i pre 0%Q) (length pre) l in
  nth c (pre ++ l) 0%Q = fold_left Qmax l (nth best_i pre 0%Q)
  /\ is_argmax c (pre ++ l).
Proof.
  revert pre best_i; induction l as [|x l IH]; intros pre best_i Hb Hall Hfirst.
  - simpl. rewrite app_nil_r. split; [reflexivity|].
    split; [exact Hb|]. split; assumption.
  - cbn [argmax_from fold_left].
    replace (pre ++ x :: l) with ((pre ++ [x]) ++ l)
      by (rewrite <- app_assoc; reflexivity).
    assert (Hlen : S (length pre) = length (pre ++ [x]))
      by (rewrite length_app; simpl; lia).
    destruct (Qle_bool x (nth best_i pre 0%Q)) eqn:E.
    + rewrite (Qmax_keep _ _ E), Hlen.
      replace (nth best_i pre 0%Q) with (nth best_i (pre ++ [x]) 0%Q)
        by (apply app_nth1; exact Hb).
      apply IH.
      * rewrite <- Hlen; lia.
      * rewrite (app_nth1 _ _ _ Hb). apply Forall_app; split; [exact Hall|].
        constructor; [now apply Qle_bool_iff | constructor].
      * intros c' Hc'. rewrite !app_nth1 by lia. now apply Hfirst.
    + rewrite (Qmax_replace _ _ E), Hlen.
      assert (Hx : nth (length pre) (pre ++ [x]) 0%Q = x)
        by (rewrite app_nth2, Nat.sub_diag by lia; reflexivity).
      apply Qle_bool_false_lt in E.
      pose proof (IH (pre ++ [x]) (length pre)) as IH'.
      rewrite Hx in IH'. apply IH'.
      * rewrite <- Hlen; lia.
      * apply Forall_app; split.
        -- eapply Forall_impl; [|exact Hall]. intros v Hv.
           eapply Qle_trans; [exact Hv | apply Qlt_le_weak, E].
        -- constructor; [apply Qle_refl | constructor].
      * intros c' Hc'. rewrite app_nth1 by lia.
        rewrite Forall_forall in Hall.
        eapply Qle_lt_trans; [apply Hall, nth_In; lia | exact E].
Qed.

Lemma argmax_is_argmax (l : list Q) :
  l <> [] -> nth (argmax l) l 0%Q = amax l /\ is_argmax (argmax l) l.
Proof.
  destruct l as [|x l]; [congruence|]; intros _.
  apply (argmax_from_scan [x] l 0); simpl.
  - lia.
  - constructor; [apply Qle_refl | constructor].
  - intros c' Hc'; lia.
Qed.

Lemma amax_is_max (l : list Q) : l <> [] -> is_max (amax l) l.
Proof.
  intro Hne. destruct (argmax_is_argmax l Hne) as [E [Hc [Hall _]]].
  rewrite <- E. split; [now apply nth_In | exact Hall].
Qed.

Lemma is_max_unique (m m' : Q) (l : list Q) :
  is_max m l -> is_max m' l -> (m == m')%Q.
Proof.
  intros [Hin Hall] [Hin' Hall']. rewrite Forall_forall in Hall, Hall'.
  apply Qle_antisym; auto.
Qed.

(** ** Arrays as functions of the position *)

Lemma zip_with_seq {A B C : Type} (f : A -> B -> C) (da : A) (db : B)
      (a : list A) (b : list B) :
  length a = length b ->
  zip_with f a b = map (fun p => f (nth p a da) (nth p b db)) (seq 0 (length a)).
Proof.
  revert b; induction a as [|x a IH]; intros [|y b] H; simpl in *;
    try discriminate; [reflexivity|].
  f_equal. rewrite <- seq_shift, map_map. apply IH. lia.
Qed.

Lemma where_from_In (k : nat) (m : list bool) (p : nat) :
  In p (where_from k m) <-> exists q, p = k + q /\ nth q m false = true.
Proof.
  revert k; induction m as [|b m IH]; intro k; simpl.
  - split; [tauto|]. intros [[|q] [_ H]]; discriminate.
  - split.
    + intro H.
      assert (Hc : (b = true /\ p = k) \/ In p (where_from (S k) m))
        by (destruct b; [destruct H as [<-|H]|]; auto).
      destruct Hc as [[-> ->]|Hc].
      * exists 0; split; [lia | reflexivity].
      * apply IH in Hc. destruct Hc as [q [-> Hq]].
        exists (S q); split; [lia | exact Hq].
    + intros [[|q] [-> Hq]].
      * subst b. left. lia.
      * assert (Hin : In (k + S q) (where_from (S k) m))
          by (apply IH; exists q; split; [lia | exact Hq]).
        destruct b; [right|]; exact Hin.
Qed.

Lemma where_In (m : list bool) (p : nat) :
  In p (where_ m) <-> nth p m false = true.
Proof.
  unfold where_. rewrite where_from_In. split.
  - intros [q [-> Hq]]. exact Hq.
  - intro H. exists p. split; [reflexivity | exact H].
Qed.

Lemma where_lt (m : list bool) (p : nat) : In p (where_ m) -> p < length m.
Proof.
  intro H. pose proof (where_from_bound 0 m) as Hb.
  rewrite Forall_forall in Hb. apply Hb in H. lia.
Qed.

Lemma where_from_sorted (k : nat) (m : list bool) :
  StronglySorted lt (where_from k m).
Proof.
  revert k; induction m as [|b m IH]; intro k; simpl; [constructor|].
  destruct b; [|apply IH]. constructor; [apply IH|].
  eapply Forall_impl; [|apply (where_from_bound (S k) m)].
  simpl; intros; lia.
Qed.

Lemma where_map_seq_In (q : nat -> bool) (n p : nat) :
  In p (where_ (map q (seq 0 n))) <-> p < n /\ q p = true.
Proof.
  split.
  - intro H. pose proof (where_lt _ _ H) as Hlt.
    rewrite length_map, length_seq in Hlt. split; [exact Hlt|].
    apply where_In in H.
    rewrite (nth_indep _ false (q 0)), map_nth, seq_nth in H
      by (rewrite ?length_map, ?length_seq; lia).
    exact H.
  - intros [Hlt Hq]. apply where_In.
    rewrite (nth_indep _ false (q 0)), map_nth, seq_nth
      by (rewrite ?length_map, ?length_seq; lia).
    exact Hq.
Qed.

Lemma take_map_seq {A : Type} (d : A) (f : nat -> A) (n : nat) (pos : list nat) :
  Forall (fun p => p < n) pos -> take d (map f (seq 0 n)) pos = map f pos.
Proof.
  intro H. unfold take. apply map_ext_in; intros p Hp.
  rewrite Forall_forall in H. specialize (H p Hp).
  rewrite (nth_indep _ d (f 0)), map_nth, seq_nth
    by (rewrite ?length_map, ?length_seq; lia).
  reflexivity.
Qed.

(** ** The candidate filter *)

Lemma cell_scores_nonempty (box_confidences : list Q)
      (box_class_probs : list (list Q)) (p : nat) :
  Forall (fun v => v <> []) box_class_probs ->
  p < length box_class_probs ->
  cell_scores box_confidences box_class_probs p <> [].
Proof.
  intros Hne Hp. unfold cell_scores.
  rewrite Forall_forall in Hne.
  specialize (Hne _ (nth_In box_class_probs [] Hp)).
  destruct (nth p box_class_probs []); [congruence | discriminate].
Qed.

Lemma _filter_boxes_unfold (self : PostprocessYOLO) (boxes : list Box)
      (box_confidences : list Q) (box_class_probs : list (list Q)) :
  length box_class_probs = length box_confidences ->
  let cs := cell_scores box_confidences box_class_probs in
  let pos :=
    where_ (map (fun p => Qle_bool (object_threshold self) (amax (cs p)))
                (seq 0 (length box_confidences))) in
  _filter_boxes self boxes box_confidences box_class_probs
  = (take box0 boxes pos,
     map (fun p => argmax (cs p)) pos,
     map (fun p => amax (cs p)) pos).
Proof.
  intros Hlen cs pos. unfold _filter_boxes; cbv zeta.
  rewrite (zip_with_seq _ 0%Q [] box_confidences box_class_probs)
    by (symmetry; exact Hlen).
  fold cs. rewrite !map_map. fold pos.
  assert (Hpos : Forall (fun p => p < length box_confidences) pos).
  { apply Forall_forall; intros p Hp.
    apply where_map_seq_In in Hp. tauto. }
  rewrite !take_map_seq by exact Hpos.
  reflexivity.
Qed.

(** C1.  The candidate filter keeps the cells/anchors at the positions [pos]:
    exactly those whose greatest score [objectness * category_probability]
    reaches [object_threshold], so every cell/anchor whose greatest score is
    below it is discarded.  Each survivor records that greatest score as its
    confidence and its first position along the class axis as its class. *)
Theorem filter_boxes_keeps_max_score_above_threshold
        (self : PostprocessYOLO) (boxes : list Box) (box_confidences : list Q)
        (box_class_probs : list (list Q)) :
  length box_class_probs = length box_confidences ->
  Forall (fun v => v <> []) box_class_probs ->
  let cell := cell_scores box_confidences box_class_probs in
  let '(kept, classes, scores) :=
    _filter_boxes self boxes box_confidences box_class_probs in
  exists pos,
    StronglySorted lt pos
    /\ (forall p, In p pos <->
                  p < length box_confidences /\
                  exists m, is_max m (cell p) /\ (object_threshold self <= m)%Q)
    /\ (forall p m, is_max m (cell p) -> (m < object_threshold self)%Q ->
                    ~ In p pos)
    /\ kept = take box0 boxes pos
    /\ length classes = length pos
    /\ length scores = length pos
    /\ Forall2 (fun p cs =>
                  is_argmax (fst cs) (cell p) /\
                  snd cs = nth (fst cs) (cell p) 0%Q /\
                  is_max (snd cs) (cell p) /\
                  (object_threshold self <= snd cs)%Q)
               pos (combine classes scores).
Proof.
  intros Hlen Hne cell.
  rewrite (_filter_boxes_unfold self boxes _ _ Hlen). cbv zeta. fold cell.
  set (pos := where_ _).
  assert (Hcell : forall p, p < length box_confidences -> cell p <> []).
  { intros p Hp. apply cell_scores_nonempty; [exact Hne | lia]. }
  assert (Hpos : forall p, In p pos <->
                           p < length box_confidences /\
                           Qle_bool (object_threshold self) (amax (cell p)) = true).
  { intro p. apply (where_map_seq_In
                      (fun p => Qle_bool (object_threshold self) (amax (cell p)))). }
  exists pos. split; [|split; [|split; [|split; [|split; [|split]]]]].
  - apply where_from_sorted.
  - intro p. rewrite Hpos. split.
    + intros [Hp Hq]. split; [exact Hp|].
      exists (amax (cell p)). split; [now apply amax_is_max, Hcell|].
      now apply Qle_bool_iff.
    + intros [Hp [m [Hm Hq]]]. split; [exact Hp|].
      apply Qle_bool_iff.
      rewrite <- (is_max_unique _ _ _ Hm (amax_is_max _ (Hcell p Hp))).
      exact Hq.
  - intros p m Hm Hlt Hin. apply Hpos in Hin. destruct Hin as [Hp Hq].
    apply Qle_bool_iff in Hq.
    rewrite <- (is_max_unique _ _ _ Hm (amax_is_max _ (Hcell p Hp))) in Hq.
    eapply Qlt_not_le; eassumption.
  - reflexivity.
  - apply length_map.
  - apply length_map.
  - assert (Hall : Forall (fun p => p < length box_confidences /\
                     Qle_bool (object_threshold self) (amax (cell p)) = true) pos)
      by (apply Forall_forall; intro p; apply Hpos).
    clearbody pos. clear Hpos.
    induction Hall as [|p l [Hp Hq] Hall IH]; simpl; constructor; [|exact IH].
    destruct (argmax_is_argmax (cell p) (Hcell p Hp)) as [E Harg].
    simpl. split; [exact Harg|]. split; [symmetry; exact E|].
    split; [apply (amax_is_max _ (Hcell p Hp)) | now apply Qle_bool_iff].
Qed.

(** ** Exceptions and loops *)

Lemma for_each_Ok {A B : Type} (f : A -> result B) (l : list A) (ys : list B) :
  for_each f l = Ok ys -> Forall2 (fun x y => f x = Ok y) l ys.
Proof.
  revert ys; induction l as [|x l IH]; intros ys H; simpl in H.
  - injection H as <-. constructor.
  - destruct (f x) as [y|e] eqn:E; simpl in H; [|discriminate].
    destruct (for_each f l) as [ys'|e]; simpl in H; [|discriminate].
    injection H as <-. constructor; [exact E | now apply IH].
Qed.

Lemma for_each_Raise {A B : Type} (f : A -> result B) (l : list A) (e : exn) :
  (exists x, In x l /\ f x = Raise e) ->
  (forall x e', In x l -> f x = Raise e' -> e' = e) ->
  for_each f l = Raise e.
Proof.
  induction l as [|x l IH]; intros [x0 [Hin Hx0]] Hall; [destruct Hin|].
  simpl. destruct (f x) as [y|e'] eqn:E; simpl.
  - destruct Hin as [->|Hin]; [congruence|].
    rewrite IH; [reflexivity | now exists x0 |].
    intros x' e' Hx'. apply Hall. now right.
  - f_equal. apply (Hall x); [now left | exact E].
Qed.

Lemma reshape_check_Raise (size : nat) (shape : list nat) (e : exn) :
  reshape_check size shape = Raise e -> e = ValueError.
Proof. unfold reshape_check. destruct (_ =? _); congruence. Qed.

Lemma _reshape_output_Raise (output : Tensor) (e : exn) :
  _reshape_output output = Raise e -> e = ValueError.
Proof.
  unfold _reshape_output; cbv zeta.
  destruct (reshape_check _ _) eqn:E; simpl; [discriminate|].
  intro H; injection H as <-. now apply reshape_check_Raise in E.
Qed.

Lemma _reshape_output_size (output : Tensor) :
  t_n output * t_h output * t_w output * t_c output
  <> t_h output * t_w output * 3 * 85 ->
  _reshape_output output = Raise ValueError.
Proof.
  intro H. unfold _reshape_output, reshape_check; cbv zeta.
  destruct (_ =? _) eqn:E; [|reflexivity].
  apply Nat.eqb_eq in E. cbn [fold_right] in E. exfalso. lia.
Qed.

Lemma _reshape_output_channels (output : Tensor) :
  t_n output = 1 -> 0 < t_h output * t_w output -> t_c output <> 3 * (5 + 80) ->
  _reshape_output output = Raise ValueError.
Proof.
  intros Hn Hg Hc. apply _reshape_output_size. rewrite Hn. nia.
Qed.

(** ** Assembling the result *)

Lemma concat_map_length {A B C : Type} (f : A -> list B) (g : A -> list C)
      (l : list A) :
  Forall (fun x => length (f x) = length (g x)) l ->
  length (concat (map f l)) = length (concat (map g l)).
Proof.
  induction 1 as [|x l Hx Hl IH]; simpl; [reflexivity|].
  rewrite !length_app. lia.
Qed.

Section Assemble.
Variable set_iter : list nat -> list nat.
Variable self : PostprocessYOLO.

Lemma nms_class_lengths (boxes : list Box) (categories : list nat)
      (confidences : list Q) (category : nat) :
  let r := nms_class self boxes categories confidences category in
  length (fst (fst r)) = length (snd (fst r)) /\
  length (snd (fst r)) = length (snd r).
Proof. unfold nms_class; cbv zeta; cbn [fst snd]. now rewrite !take_length. Qed.

Lemma suppress_and_assemble_empty (boxes : list Box) (categories : list nat)
      (confidences : list Q) (resolution_raw : Z * Z) :
  set_iter categories = [] ->
  suppress_and_assemble set_iter self (boxes, categories, confidences)
                        resolution_raw
  = Ok (None, None, None).
Proof. intro H. unfold suppress_and_assemble. rewrite H. reflexivity. Qed.

Lemma suppress_and_assemble_cons (boxes : list Box) (categories : list nat)
      (confidences : list Q) (resolution_raw : Z * Z) :
  set_iter categories <> [] ->
  let per_class :=
    map (nms_class self (scale_boxes boxes (image_dims resolution_raw))
                   categories confidences)
        (set_iter categories) in
  suppress_and_assemble set_iter self (boxes, categories, confidences)
                        resolution_raw
  = Ok (Some (concat (map (fun r => fst (fst r)) per_class)),
        Some (concat (map (fun r => snd (fst r)) per_class)),
        Some (concat (map (fun r => snd r) per_class))).
Proof.
  intro H. unfold suppress_and_assemble; cbv zeta.
  destruct (set_iter categories) as [|c l]; [congruence|]. reflexivity.
Qed.

(** The second half of [_process_yolo_output] raises nothing and returns
    either three [None] or three arrays of one length. *)
Lemma suppress_and_assemble_aligned (cands : list Box * list nat * list Q)
      (resolution_raw : Z * Z) :
  exists r, suppress_and_assemble set_iter self cands resolution_raw = Ok r
            /\ aligned r.
Proof.
  destruct cands as [[boxes categories] confidences].
  destruct (set_iter categories) as [|c l] eqn:E.
  - eexists; split; [now apply suppress_and_assemble_empty | exact I].
  - eexists; split.
    + apply suppress_and_assemble_cons. congruence.
    + cbv zeta. simpl aligned. rewrite !map_map. split.
      * apply concat_map_length, Forall_forall; intros x _.
        apply nms_class_lengths.
      * apply concat_map_length, Forall_forall; intros x _.
        apply nms_class_lengths.
Qed.

End Assemble.

(** ** The candidates of all scales *)

Lemma _filter_boxes_lengths (self : PostprocessYOLO) (boxes : list Box)
      (box_confidences : list Q) (box_class_probs : list (list Q)) :
  let r := _filter_boxes self boxes box_confidences box_class_probs in
  length (fst (fst r)) = length (snd (fst r)) /\
  length (snd (fst r)) = length (snd r).
Proof. unfold _filter_boxes; cbv zeta; cbn [fst snd]. now rewrite !take_length. Qed.

Lemma concatenate_Ok {A : Type} (arrays : list (list A)) (a : list A) :
  concatenate arrays = Ok a -> arrays <> [] /\ a = concat arrays.
Proof.
  destruct arrays as [|x l]; simpl; [discriminate|].
  intro H; injection H as <-. split; [discriminate | reflexivity].
Qed.

Lemma candidates_lengths (np_exp : Q -> Q) (self : PostprocessYOLO)
      (outputs_reshaped : list Reshaped) (boxes : list Box)
      (categories : list nat) (confidences : list Q) :
  candidates np_exp self outputs_reshaped = Ok (boxes, categories, confidences) ->
  length boxes = length categories /\ length categories = length confidences.
Proof.
  unfold candidates.
  set (body := fun om : Reshaped * (nat * nat * nat) => _).
  destruct (for_each body _) as [per_scale|e] eqn:E; simpl; [|discriminate].
  apply for_each_Ok in E.
  assert (Hall : Forall (fun r : list Box * list nat * list Q =>
                           length (fst (fst r)) = length (snd (fst r)) /\
                           length (snd (fst r)) = length (snd r)) per_scale).
  { clear -E. induction E as [|[o m] r l l' Hr _ IH]; constructor; [|exact IH].
    unfold body in Hr.
    destruct (_process_feats np_exp self o m) as [[[b c] p]|e]; simpl in Hr;
      [|discriminate].
    injection Hr as <-. apply _filter_boxes_lengths. }
  destruct per_scale as [|r l]; simpl; [discriminate|].
  intro H; injection H as <- <- <-.
  change (length (concat (map (fun r => fst (fst r)) (r :: l)))
          = length (concat (map (fun r => snd (fst r)) (r :: l))) /\
          length (concat (map (fun r => snd (fst r)) (r :: l)))
          = length (concat (map (fun r => snd r) (r :: l)))).
  split; apply concat_map_length; eapply Forall_impl; try exact Hall;
    simpl; intros; tauto.
Qed.

Lemma process_Ok (np_exp : Q -> Q) (set_iter : list nat -> list nat)
      (self : PostprocessYOLO) (outputs : list Tensor) (resolution_raw : Z * Z)
      (r : Detections) :
  process np_exp set_iter self outputs resolution_raw = Ok r ->
  exists outputs_reshaped cands,
    for_each _reshape_output outputs = Ok outputs_reshaped /\
    candidates np_exp self outputs_reshaped = Ok cands /\
    suppress_and_assemble set_iter self cands resolution_raw = Ok r.
Proof.
  unfold process, _process_yolo_output.
  destruct (for_each _reshape_output outputs) as [rs|e] eqn:Er; simpl;
    [|discriminate].
  destruct (candidates np_exp self rs) as [cands|e] eqn:Ec; simpl;
    [|discriminate].
  intro H. exists rs, cands. auto.
Qed.

(** C8.  Whatever the tensors and the resolution, the three outputs of
    [process] are index-aligned: boxes, class indices and confidences have
    one length (all three are [None] when nothing is detected). *)
Theorem process_outputs_have_equal_length
        (np_exp : Q -> Q) (set_iter : list nat -> list nat)
        (self : PostprocessYOLO) (outputs : list Tensor)
        (resolution_raw : Z * Z) (r : Detections) :
  process np_exp set_iter self outputs resolution_raw = Ok r ->
  aligned r.
Proof.
  intro H. apply process_Ok in H. destruct H as [rs [cands [_ [_ H]]]].
  destruct (suppress_and_assemble_aligned set_iter self cands resolution_raw)
    as [r' [Hr' Ha]].
  congruence.
Qed.

Lemma visits_members_nil (set_iter : list nat -> list nat) :
  visits_members set_iter -> set_iter [] = [].
Proof.
  intro H. destruct (set_iter []) as [|c l] eqn:E; [reflexivity|].
  exfalso. apply (proj1 (H [] c)). rewrite E. now left.
Qed.

(** C7.  When the filter leaves no candidate on any scale, [process] returns
    the no-detections result, three [None], and raises nothing; and whatever
    the candidates, the assembled result is never a mix: it is three [None]
    or three arrays of one length. *)
Theorem no_candidates_give_no_detections
        (np_exp : Q -> Q) (set_iter : list nat -> list nat)
        (self : PostprocessYOLO) (outputs : list Tensor)
        (resolution_raw : Z * Z) (outputs_reshaped : list Reshaped)
        (boxes : list Box) (confidences : list Q) :
  visits_members set_iter ->
  for_each _reshape_output outputs = Ok outputs_reshaped ->
  candidates np_exp self outputs_reshaped = Ok (boxes, [], confidences) ->
  process np_exp set_iter self outputs resolution_raw = Ok (None, None, None)
  /\ forall cands,
      exists r, suppress_and_assemble set_iter self cands resolution_raw = Ok r
                /\ aligned r.
Proof.
  intros Hset Hr Hc. split.
  - unfold process, _process_yolo_output. rewrite Hr; simpl. rewrite Hc; simpl.
    apply suppress_and_assemble_empty, visits_members_nil, Hset.
  - intro cands. apply suppress_and_assemble_aligned.
Qed.

(** ** One class *)

Lemma take_nth {A : Type} (d : A) (a : list A) (idx : list nat) (j : nat) :
  j < length idx -> nth j (take d a idx) d = nth (nth j idx 0) a d.
Proof.
  intro H. unfold take.
  rewrite (nth_indep _ d (nth 0 a d)) by (rewrite length_map; exact H).
  apply (map_nth (fun i => nth i a d)).
Qed.

Lemma where_eqb_In (c : nat) (categories : list nat) (p : nat) :
  In p (where_ (map (Nat.eqb c) categories)) <-> nth_error categories p = Some c.
Proof.
  rewrite where_In. revert p; induction categories as [|k l IH]; intro p.
  - destruct p; simpl; split; discriminate.
  - destruct p as [|p]; simpl.
    + rewrite Nat.eqb_eq. split; [now intros -> | now intros [= ->]].
    + apply IH.
Qed.

Section OneClass.
Variable self : PostprocessYOLO.
Variable boxes : list Box.
Variable categories : list nat.
Variable confidences : list Q.
Variable c : nat.

(** The categories handed back for class [c] are all [c]. *)
Lemma nms_class_categories :
  Forall (eq c) (snd (fst (nms_class self boxes categories confidences c))).
Proof.
  unfold nms_class; cbv zeta; cbn [fst snd].
  set (idxs := where_ (map (Nat.eqb c) categories)).
  set (keep := _nms_boxes self _ _).
  pose proof (_nms_boxes_lt self (take box0 boxes idxs)
                            (take 0%Q confidences idxs)) as Hlt.
  fold keep in Hlt. rewrite take_length in Hlt.
  apply Forall_forall; intros k Hk. unfold take at 1 in Hk.
  apply in_map_iff in Hk. destruct Hk as [i [<- Hi]].
  rewrite Forall_forall in Hlt. specialize (Hlt i Hi).
  rewrite take_nth by exact Hlt.
  assert (Hin : In (nth i idxs 0) idxs) by (apply nth_In; exact Hlt).
  apply where_eqb_In in Hin. symmetry. now apply nth_error_nth.
Qed.

(** A class that occurs keeps at least its most confident candidate. *)
Lemma nms_class_best :
  In c categories ->
  exists b bs k ks s ss,
    nms_class self boxes categories confidences c = (b :: bs, k :: ks, s :: ss)
    /\ forall p, nth_error categories p = Some c ->
                 (nth p confidences 0 <= s)%Q.
Proof.
  intro Hc. unfold nms_class; cbv zeta.
  set (idxs := where_ (map (Nat.eqb c) categories)).
  assert (Hidx : forall p, nth_error categories p = Some c ->
                           exists j, j < length idxs /\ nth j idxs 0 = p).
  { intros p Hp. apply where_eqb_In in Hp. fold idxs in Hp.
    now apply In_nth. }
  assert (Hne : take 0%Q confidences idxs <> []).
  { apply In_nth_error in Hc. destruct Hc as [p Hp].
    destruct (Hidx p Hp) as [j [Hj _]].
    intro E. apply (f_equal (@length Q)) in E.
    rewrite take_length in E. simpl in E. lia. }
  destruct (nms_head_is_best self (take box0 boxes idxs) _ Hne)
    as [i [rest [E [Hi Hbest]]]].
  rewrite E. rewrite take_length in Hi, Hbest. simpl.
  do 6 eexists. split; [reflexivity|].
  intros p Hp. destruct (Hidx p Hp) as [j [Hj <-]].
  rewrite <- (take_nth 0%Q confidences idxs j Hj). now apply Hbest.
Qed.

End OneClass.

Lemma concat_map_nonempty {A B : Type} (f : A -> list B) (l : list A) (x : A) :
  In x l -> f x <> [] -> concat (map f l) <> [].
Proof.
  induction l as [|y l IH]; intros Hin Hx; [destruct Hin|]. simpl.
  destruct Hin as [->|Hin].
  - destruct (f x); [congruence | discriminate].
  - intro E. apply app_eq_nil in E. now apply (IH Hin Hx).
Qed.

(** C10.  A non-empty group handed to the suppression of a class keeps at
    least one index, and the first one kept has the greatest confidence of
    the group; so every class that occurs among the candidates hands back its
    most confident candidate, and [process] returns no detection only when
    the filter left no candidate at all. *)
Theorem nms_keeps_the_best_of_each_class
        (np_exp : Q -> Q) (set_iter : list nat -> list nat) :
  visits_members set_iter ->
  (forall self boxes box_confidences,
      box_confidences <> [] ->
      exists i rest,
        _nms_boxes self boxes box_confidences = i :: rest /\
        i < length box_confidences /\
        forall j, j < length box_confidences ->
                  (nth j box_confidences 0 <= nth i box_confidences 0)%Q)
  /\ (forall self boxes categories confidences c,
         In c categories ->
         exists b bs k ks s ss,
           nms_class self boxes categories confidences c
           = (b :: bs, k :: ks, s :: ss)
           /\ forall p, nth_error categories p = Some c ->
                        (nth p confidences 0 <= s)%Q)
  /\ (forall self outputs resolution_raw r,
         process np_exp set_iter self outputs resolution_raw = Ok r ->
         detection_count r = 0 ->
         exists outputs_reshaped,
           for_each _reshape_output outputs = Ok outputs_reshaped /\
           candidates np_exp self outputs_reshaped = Ok ([], [], [])).
Proof.
  intro Hset. split; [|split].
  - intros self boxes box_confidences. apply nms_head_is_best.
  - intros self boxes categories confidences c. apply nms_class_best.
  - intros self outputs resolution_raw r Hr Hcount.
    apply process_Ok in Hr.
    destruct Hr as [rs [[[boxes categories] confidences] [Hrs [Hc Hr]]]].
    exists rs. split; [exact Hrs|].
    destruct (candidates_lengths _ _ _ _ _ _ Hc) as [Hl1 Hl2].
    destruct categories as [|c l].
    + destruct boxes; [|discriminate]. destruct confidences; [|discriminate].
      exact Hc.
    + exfalso.
      assert (Hin : In c (set_iter (c :: l))) by (apply Hset; now left).
      rewrite suppress_and_assemble_cons in Hr
        by (intro E; rewrite E in Hin; destruct Hin).
      cbv zeta in Hr. injection Hr as <-. simpl in Hcount.
      apply length_zero_iff_nil in Hcount. revert Hcount.
      rewrite map_map. apply (concat_map_nonempty _ _ c Hin).
      destruct (nms_class_best self
                  (scale_boxes boxes (image_dims resolution_raw))
                  (c :: l) confidences c (or_introl eq_refl))
        as [b [bs [k [ks [s [ss [E _]]]]]]].
      rewrite E. discriminate.
Qed.

(** ** Order of the result and repeated runs *)

Lemma Forall2_map_same {A B : Type} (P : A -> B -> Prop) (f : A -> B)
      (l : list A) :
  (forall x, In x l -> P x (f x)) -> Forall2 P l (map f l).
Proof.
  induction l as [|x l IH]; intro H; simpl; constructor.
  - apply H; now left.
  - apply IH; intros y Hy; apply H; now right.
Qed.


(** ** Malformed input *)

(** C6, as the code has it.  A tensor of batch size 1 over a non-empty grid
    whose channel count differs from [3 * (5 + 80)] makes [process] raise
    NumPy's [ValueError]; the reshaping of the tensors raises it, before any
    scale is decoded, and no result is returned.  (The number of tensors is
    not compared with the number of masks.) *)
Theorem malformed_channels_fail_before_decoding
        (np_exp : Q -> Q) (set_iter : list nat -> list nat)
        (self : PostprocessYOLO) (outputs : list Tensor)
        (resolution_raw : Z * Z) (t : Tensor) :
  In t outputs ->
  t_n t = 1 ->
  0 < t_h t * t_w t ->
  t_c t <> 3 * (5 + 80) ->
  for_each _reshape_output outputs = Raise ValueError
  /\ process np_exp set_iter self outputs resolution_raw = Raise ValueError.
Proof.
  intros Hin Hn Hg Hc.
  assert (E : for_each _reshape_output outputs = Raise ValueError).
  { apply for_each_Raise.
    - exists t. split; [exact Hin | now apply _reshape_output_channels].
    - intros x e' _. apply _reshape_output_Raise. }
  split; [exact E|]. unfold process. rewrite E. reflexivity.
Qed.

(** ** The resolution handed over by the caller *)

(** What [_process_yolo_output] does with the pair it is given: the first
    component scales x and w, the second y and h. *)
Lemma scale_boxes_image_dims (boxes : list Box) (first second : Z) :
  scale_boxes boxes (image_dims (first, second))
  = map (fun b => mkBox (bx b * inject_Z first) (by_ b * inject_Z second)
                        (bw b * inject_Z first) (bh b * inject_Z second))
        boxes.
Proof. reflexivity. Qed.

(** C5, at an image of height 480 and width 640.  [__call__] hands
    [image.shape[:2]], that is (height, width), to [process], which unpacks
    it as (width, height): x and w are multiplied by the height 480, y and h
    by the width 640. *)
Theorem call_rescales_x_by_image_height
        (np_exp : Q -> Q) (set_iter : list nat -> list nat)
        (do_inference : Image -> list (list Q)) (self : DarknetTRT)
        (pixels : list Q) (b : Box) :
  let image := mkImage (480, 640, 3) pixels in
  DarknetTRT__call__ np_exp set_iter do_inference self image
  = (trt_outputs <-
       for_each (fun os : list Q * (nat * nat * nat * nat) =>
                   let (output, shape) := os in reshape_flat output shape)
                (combine (do_inference image) (output_shapes self)) ;;
     process np_exp set_iter (postprocessor self) trt_outputs (480, 640)%Z)
  /\ image_dims (480, 640)%Z = [480; 640; 480; 640]%Z
  /\ scale_boxes [b] (image_dims (shape_orig_WH_2 image))
     = [mkBox (bx b * 480) (by_ b * 640) (bw b * 480) (bh b * 640)].
Proof.
  intro image. split; [|split]; reflexivity.
Qed.

(** ** Instances *)

Lemma last_occurrences_visits_members : visits_members last_occurrences.
Proof. intros l c. apply nodup_In. Qed.

Lemma filter_boxes_keeps_max_score_above_threshold_witness :
  length sample_class_probs = length sample_objectness
  /\ Forall (fun v => v <> []) sample_class_probs
  /\ (let cell := cell_scores sample_objectness sample_class_probs in
      let '(kept, classes, scores) :=
        _filter_boxes yolov3 sample_boxes sample_objectness sample_class_probs in
      exists pos,
        StronglySorted lt pos
        /\ (forall p, In p pos <->
                      p < length sample_objectness /\
                      exists m, is_max m (cell p) /\
                                (object_threshold yolov3 <= m)%Q)
        /\ (forall p m, is_max m (cell p) -> (m < object_threshold yolov3)%Q ->
                        ~ In p pos)
        /\ kept = take box0 sample_boxes pos
        /\ length classes = length pos
        /\ length scores = length pos
        /\ Forall2 (fun p cs =>
                      is_argmax (fst cs) (cell p) /\
                      snd cs = nth (fst cs) (cell p) 0%Q /\
                      is_max (snd cs) (cell p) /\
                      (object_threshold yolov3 <= snd cs)%Q)
                   pos (combine classes scores)).
Proof.
  split; [reflexivity|].
  split; [repeat constructor; discriminate|].
  apply (filter_boxes_keeps_max_score_above_threshold
           yolov3 sample_boxes sample_objectness sample_class_probs).
  - reflexivity.
  - repeat constructor; discriminate.
Defined.

Lemma nms_kept_pairs_within_threshold_witness :
  In 1 (_nms_boxes yolov3 sample_boxes sample_confidences)
  /\ In 2 (_nms_boxes yolov3 sample_boxes sample_confidences)
  /\ 1 <> 2
  /\ less_equal (spec_iou (nth 1 sample_boxes box0) (nth 2 sample_boxes box0))
                (nms_threshold yolov3) = true.
Proof.
  assert (H1 : In 1 (_nms_boxes yolov3 sample_boxes sample_confidences))
    by (vm_compute; auto).
  assert (H2 : In 2 (_nms_boxes yolov3 sample_boxes sample_confidences))
    by (vm_compute; auto).
  assert (Hne : 1 <> 2) by lia.
  split; [exact H1|]. split; [exact H2|]. split; [exact Hne|].
  exact (nms_kept_pairs_within_threshold
           yolov3 sample_boxes sample_confidences 1 2 H1 H2 Hne).
Defined.

Lemma malformed_channels_fail_before_decoding_witness :
  In short_tensor [short_tensor]
  /\ t_n short_tensor = 1
  /\ 0 < t_h short_tensor * t_w short_tensor
  /\ t_c short_tensor <> 3 * (5 + 80)
  /\ for_each _reshape_output [short_tensor] = Raise ValueError
  /\ process exp_stub last_occurrences yolov3 [short_tensor] (640, 480)%Z
     = Raise ValueError.
Proof.
  assert (H1 : In short_tensor [short_tensor]) by (left; reflexivity).
  assert (H2 : t_n short_tensor = 1) by reflexivity.
  assert (H3 : 0 < t_h short_tensor * t_w short_tensor) by (simpl; lia).
  assert (H4 : t_c short_tensor <> 3 * (5 + 80)) by (simpl; lia).
  repeat (split; [assumption|]).
  exact (malformed_channels_fail_before_decoding
           exp_stub last_occurrences yolov3 [short_tensor] (640, 480)%Z
           short_tensor H1 H2 H3 H4).
Defined.

Lemma no_candidates_give_no_detections_witness :
  visits_members last_occurrences
  /\ for_each _reshape_output quiet_scales = Ok quiet_reshaped
  /\ candidates exp_stub yolov3 quiet_reshaped = Ok ([], [], [])
  /\ process exp_stub last_occurrences yolov3 quiet_scales (640, 480)%Z
     = Ok (None, None, None).
Proof.
  assert (H1 : for_each _reshape_output quiet_scales = Ok quiet_reshaped)
    by (vm_compute; reflexivity).
  assert (H2 : candidates exp_stub yolov3 quiet_reshaped = Ok ([], [], []))
    by (vm_compute; reflexivity).
  split; [exact last_occurrences_visits_members|].
  split; [exact H1|]. split; [exact H2|].
  exact (proj1 (no_candidates_give_no_detections
                  exp_stub last_occurrences yolov3 quiet_scales (640, 480)%Z
                  quiet_reshaped [] [] last_occurrences_visits_members H1 H2)).
Defined.

Lemma process_outputs_have_equal_length_witness :
  exists r,
    process exp_stub last_occurrences yolov3 two_scales (640, 480)%Z = Ok r
    /\ detection_count r = 1
    /\ aligned r.
Proof.
  eexists. split; [vm_compute; reflexivity|]. split; [reflexivity|].
  apply (process_outputs_have_equal_length
           exp_stub last_occurrences yolov3 two_scales (640, 480)%Z).
  vm_compute; reflexivity.
Defined.


Lemma nms_keeps_the_best_of_each_class_witness :
  visits_members last_occurrences
  /\ sample_confidences <> []
  /\ (exists i rest,
         _nms_boxes yolov3 sample_boxes sample_confidences = i :: rest /\
         i < length sample_confidences /\
         forall j, j < length sample_confidences ->
                   (nth j sample_confidences 0 <= nth i sample_confidences 0)%Q)
  /\ In 3 [3; 5; 3]
  /\ (exists b bs k ks s ss,
         nms_class yolov3 sample_boxes [3; 5; 3] sample_confidences 3
         = (b :: bs, k :: ks, s :: ss)
         /\ forall p, nth_error [3; 5; 3] p = Some 3 ->
                      (nth p sample_confidences 0 <= s)%Q)
  /\ process exp_stub last_occurrences yolov3 quiet_scales (640, 480)%Z
     = Ok (None, None, None)
  /\ detection_count (None, None, None) = 0
  /\ (exists outputs_reshaped,
         for_each _reshape_output quiet_scales = Ok outputs_reshaped /\
         candidates exp_stub yolov3 outputs_reshaped = Ok ([], [], [])).
Proof.
  assert (Hne : sample_confidences <> []) by discriminate.
  assert (Hin : In 3 [3; 5; 3]) by (left; reflexivity).
  assert (Hp : process exp_stub last_occurrences yolov3 quiet_scales
                       (640, 480)%Z = Ok (None, None, None))
    by (vm_compute; reflexivity).
  destruct (nms_keeps_the_best_of_each_class
              exp_stub last_occurrences last_occurrences_visits_members)
    as [A [B C]].
  split; [exact last_occurrences_visits_members|].
  split; [exact Hne|].
  split; [exact (A yolov3 sample_boxes sample_confidences Hne)|].
  split; [exact Hin|].
  split; [exact (B yolov3 sample_boxes [3; 5; 3] sample_confidences 3 Hin)|].
  split; [exact Hp|]. split; [reflexivity|].
  exact (C yolov3 quiet_scales (640, 480)%Z (None, None, None) Hp eq_refl).
Defined.

(** C6 at two well-shaped tensors for three masks: nothing is raised, and a
    detection of the first scale is returned. *)
Lemma tensor_count_mismatch_is_not_rejected :
  Forall well_shaped two_scales
  /\ Forall (fun t => t_c t = 3 * (5 + 80)) two_scales
  /\ length two_scales <> length (masks yolov3)
  /\ (forall e, process exp_stub last_occurrences yolov3 two_scales
                        (640, 480)%Z <> Raise e)
  /\ exists r,
      process exp_stub last_occurrences yolov3 two_scales (640, 480)%Z = Ok r
      /\ detection_count r = 1.
Proof.
  split; [repeat constructor|].
  split; [repeat constructor|].
  split; [simpl; lia|].
  assert (H : exists r,
             process exp_stub last_occurrences yolov3 two_scales (640, 480)%Z
             = Ok r /\ detection_count r = 1)
    by (eexists; split; [vm_compute; reflexivity | reflexivity]).
  split; [|exact H].
  destruct H as [r [Hr _]]. intros e He. congruence.
Qed.

(** * Further properties of the detector *)

(** ** The layout of a reshaped tensor *)

Lemma flat_map_const_length {A B : Type} (f : A -> list B) (k : nat) (l : list A) :
  (forall x, In x l -> length (f x) = k) ->
  length (flat_map f l) = length l * k.
Proof.
  induction l as [|x l IH]; intro H; simpl; [reflexivity|].
  rewrite length_app, (H x (or_introl eq_refl)), IH; [reflexivity|].
  intros y Hy. apply H. now right.
Qed.

Lemma flat_map_const_nth {A B : Type} (f : A -> list B) (k : nat) (l : list A)
      (x0 : A) (d : B) (i j : nat) :
  (forall x, In x l -> length (f x) = k) ->
  i < length l -> j < k ->
  nth (i * k + j) (flat_map f l) d = nth j (f (nth i l x0)) d.
Proof.
  revert i; induction l as [|x l IH]; intros i H Hi Hj; simpl in *; [lia|].
  assert (Hx : length (f x) = k) by (apply H; now left).
  destruct i as [|i].
  - simpl. rewrite app_nth1 by lia. reflexivity.
  - rewrite app_nth2 by (rewrite Hx; simpl; lia).
    replace (S i * k + j - length (f x)) with (i * k + j) by (rewrite Hx; simpl; lia).
    apply IH; [intros y Hy; apply H; now right | lia | exact Hj].
Qed.

Lemma index_lt (a b A B : nat) : a < A -> b < B -> a * B + b < A * B.
Proof. intros Ha Hb. nia. Qed.

Lemma transpose_0231_length (t : Tensor) :
  length (transpose_0231 t) = t_n t * t_h t * t_w t * t_c t.
Proof.
  unfold transpose_0231.
  rewrite (flat_map_const_length _ (t_h t * t_w t * t_c t)), length_seq by
    (intros n _;
     rewrite (flat_map_const_length _ (t_w t * t_c t)), length_seq by
       (intros h _;
        rewrite (flat_map_const_length _ (t_c t)), length_seq by
          (intros w _; now rewrite length_map, length_seq);
        reflexivity);
     lia).
  lia.
Qed.

Lemma transpose_0231_nth (t : Tensor) (n h w c : nat) :
  n < t_n t -> h < t_h t -> w < t_w t -> c < t_c t ->
  nth (((n * t_h t + h) * t_w t + w) * t_c t + c) (transpose_0231 t) 0%Q
  = nth (((n * t_c t + c) * t_h t + h) * t_w t + w) (t_data t) 0%Q.
Proof.
  intros Hn Hh Hw Hc. unfold transpose_0231.
  set (fw := fun n h w => map (fun c => nth (((n * t_c t + c) * t_h t + h) * t_w t + w)
                                            (t_data t) 0%Q) (seq 0 (t_c t))).
  set (fh := fun n h => flat_map (fw n h) (seq 0 (t_w t))).
  set (fn := fun n => flat_map (fh n) (seq 0 (t_h t))).
  change (flat_map _ (seq 0 (t_n t))) with (flat_map fn (seq 0 (t_n t))).
  assert (Lw : forall n h w, length (fw n h w) = t_c t)
    by (intros; unfold fw; now rewrite length_map, length_seq).
  assert (Lh : forall n h, length (fh n h) = t_w t * t_c t).
  { intros n0 h0; unfold fh.
    rewrite (flat_map_const_length (fw n0 h0) (t_c t)), length_seq; auto. }
  assert (Ln : forall n, length (fn n) = t_h t * t_w t * t_c t).
  { intros n0; unfold fn.
    rewrite (flat_map_const_length (fh n0) (t_w t * t_c t)), length_seq; auto.
    lia. }
  assert (Hwc : w * t_c t + c < t_w t * t_c t) by now apply index_lt.
  assert (Hhwc : h * (t_w t * t_c t) + (w * t_c t + c) < t_h t * (t_w t * t_c t))
    by now apply index_lt.
  replace (((n * t_h t + h) * t_w t + w) * t_c t + c)
    with (n * (t_h t * t_w t * t_c t) + (h * (t_w t * t_c t) + (w * t_c t + c)))
    by ring.
  rewrite (flat_map_const_nth fn (t_h t * t_w t * t_c t) _ 0 0%Q n);
    [|intros; apply Ln | now rewrite length_seq | lia].
  rewrite seq_nth by exact Hn. unfold fn.
  rewrite (flat_map_const_nth (fh (0 + n)) (t_w t * t_c t) _ 0 0%Q h);
    [|intros; apply Lh | now rewrite length_seq | exact Hwc].
  rewrite seq_nth by exact Hh. unfold fh.
  rewrite (flat_map_const_nth (fw (0 + n) (0 + h)) (t_c t) _ 0 0%Q w);
    [|intros; apply Lw | now rewrite length_seq | exact Hc].
  rewrite seq_nth by exact Hw.
  unfold fw.
  rewrite (nth_indep _ 0%Q ((fun c0 => nth ((((0 + n) * t_c t + c0) * t_h t + (0 +
      h)) * t_w t + (0 + w)) (t_data t) 0%Q) 0))
    by (now rewrite length_map, length_seq).
  rewrite (map_nth (fun c0 => nth ((((0 + n) * t_c t + c0) * t_h t + (0 + h)) * t_w
      t + (0 + w)) (t_data t) 0%Q)).
  rewrite seq_nth by exact Hc. reflexivity.
Qed.

Lemma rows_length (count k : nat) (flat : list Q) :
  length (rows count k flat) = count.
Proof. revert flat; induction count; intro flat; simpl; auto. Qed.

Lemma rows_nth (count k : nat) (flat : list Q) (j : nat) :
  j < count -> nth j (rows count k flat) [] = firstn k (skipn (j * k) flat).
Proof.
  revert flat j; induction count as [|count IH]; intros flat j Hj; [lia|].
  destruct j as [|j]; simpl; [reflexivity|].
  rewrite IH by lia. now rewrite skipn_skipn, Nat.add_comm.
Qed.

Lemma rows_row_length (count k : nat) (flat : list Q) :
  length flat = count * k ->
  Forall (fun v => length v = k) (rows count k flat).
Proof.
  revert flat; induction count as [|count IH]; intros flat H; simpl;
    constructor.
  - rewrite length_firstn. simpl in H. lia.
  - apply IH. rewrite length_skipn. simpl in H. lia.
Qed.

Lemma rows_entry (count k : nat) (flat : list Q) (j i : nat) :
  j < count -> i < k ->
  nth i (nth j (rows count k flat) []) 0%Q = nth (j * k + i) flat 0%Q.
Proof.
  intros Hj Hi. rewrite rows_nth by exact Hj.
  rewrite nth_firstn.
  destruct (i <? k) eqn:E; [|apply Nat.ltb_ge in E; lia].
  now rewrite nth_skipn.
Qed.

Lemma _reshape_output_Ok (output : Tensor) (r : Reshaped) :
  _reshape_output output = Ok r ->
  t_n output * t_h output * t_w output * t_c output
  = t_h output * t_w output * 3 * 85
  /\ r = mkReshaped (t_h output) (t_w output)
                    (rows (t_h output * t_w output * 3) 85
                          (transpose_0231 output)).
Proof.
  unfold _reshape_output, reshape_check; cbv zeta.
  destruct (_ =? _) eqn:E; simpl; [|discriminate].
  intro H; injection H as <-. apply Nat.eqb_eq in E. cbn [fold_right] in E.
  split; [lia | reflexivity].
Qed.

Lemma _reshape_output_accepts (output : Tensor) :
  t_n output * t_h output * t_w output * t_c output
  = t_h output * t_w output * 3 * 85 ->
  exists r, _reshape_output output = Ok r.
Proof.
  intro H. unfold _reshape_output, reshape_check; cbv zeta.
  destruct (_ =? _) eqn:E; simpl; [eexists; reflexivity|].
  apply Nat.eqb_neq in E. cbn [fold_right] in E. lia.
Qed.

Lemma _reshape_output_cells (output : Tensor) (r : Reshaped) :
  _reshape_output output = Ok r ->
  grid_h r = t_h output /\
  grid_w r = t_w output /\
  length (cells r) = t_h output * t_w output * 3 /\
  Forall (fun v => length v = 85) (cells r).
Proof.
  intro Hr. apply _reshape_output_Ok in Hr. destruct Hr as [Hs ->].
  cbn [grid_h grid_w cells]. repeat split.
  - apply rows_length.
  - apply rows_row_length. rewrite transpose_0231_length. lia.
Qed.

(** X1.  [_reshape_output] accepts a tensor exactly when its element count is that
    of the target shape [(H, W, 3, 85)]; the result has the grid of the
    tensor, [H * W * 3] cells, and 85 numbers in every cell. *)
Theorem reshape_output_shape (output : Tensor) :
  ((exists r, _reshape_output output = Ok r) <->
   t_n output * t_h output * t_w output * t_c output
   = t_h output * t_w output * 3 * 85)
  /\ forall r,
      _reshape_output output = Ok r ->
      grid_h r = t_h output /\
      grid_w r = t_w output /\
      length (cells r) = t_h output * t_w output * 3 /\
      Forall (fun v => length v = 85) (cells r).
Proof.
  split.
  - split.
    + intros [r Hr]. now apply _reshape_output_Ok in Hr.
    + apply _reshape_output_accepts.
  - apply _reshape_output_cells.
Qed.

(** X2.  The cell of row [h], column [w] and anchor [a] holds the 85 channels
    [a * 85 ..] of the tensor at that grid position: entry [k] of the cell is
    the element [(0, a * 85 + k, h, w)] of the NCHW tensor. *)
Theorem reshape_output_entry (output : Tensor) (r : Reshaped) (h w a k : nat) :
  _reshape_output output = Ok r ->
  t_n output = 1 ->
  h < t_h output -> w < t_w output -> a < 3 -> k < 85 ->
  nth k (nth ((h * t_w output + w) * 3 + a) (cells r) []) 0%Q
  = nth (((a * 85 + k) * t_h output + h) * t_w output + w) (t_data output) 0%Q.
Proof.
  intros Hr Hn Hh Hw Ha Hk. apply _reshape_output_Ok in Hr.
  destruct Hr as [Hs ->]. cbn [cells].
  assert (Hhw : h * t_w output + w < t_h output * t_w output)
    by now apply index_lt.
  assert (Hc : t_c output = 255) by (rewrite Hn in Hs; nia).
  rewrite rows_entry by (try apply index_lt; assumption).
  replace (((h * t_w output + w) * 3 + a) * 85 + k)
    with (((0 * t_h output + h) * t_w output + w) * t_c output + (a * 85 + k))
    by (rewrite Hc; ring).
  rewrite transpose_0231_nth by lia.
  reflexivity.
Qed.

(** ** When the decode of a scale succeeds *)

Lemma concat_repeat_length {A : Type} (l : list A) (n : nat) :
  length (concat (repeat l n)) = n * length l.
Proof. induction n as [|n IH]; simpl; [reflexivity|]. rewrite length_app; lia. Qed.

Lemma lookup_anchors (anchors : list (Q * Q)) (ms : list nat) :
  Forall (fun m => m < length anchors) ms ->
  for_each (fun i => match nth_error anchors i with
                     | Some a => Ok a
                     | None => Raise IndexError
                     end) ms
  = Ok (map (fun m => nth m anchors (0%Q, 0%Q)) ms).
Proof.
  induction 1 as [|m ms Hm _ IH]; simpl; [reflexivity|].
  rewrite (nth_error_nth' anchors (0%Q, 0%Q) Hm). simpl. rewrite IH. reflexivity.
Qed.

Lemma lookup_anchors_Raise (anchors : list (Q * Q)) (ms : list nat) :
  ~ Forall (fun m => m < length anchors) ms ->
  for_each (fun i => match nth_error anchors i with
                     | Some a => Ok a
                     | None => Raise IndexError
                     end) ms
  = Raise IndexError.
Proof.
  intro H. apply for_each_Raise.
  - apply neg_Forall_Exists_neg in H; [|intro; apply lt_dec].
    apply Exists_exists in H. destruct H as [m [Hin Hm]].
    exists m. split; [exact Hin|].
    destruct (nth_error anchors m) eqn:E; [|reflexivity].
    exfalso. apply Hm. apply nth_error_Some. congruence.
  - intros x e' _. destruct (nth_error anchors x); congruence.
Qed.

Lemma mask_in_range_dec (self : PostprocessYOLO) (mask : nat * nat * nat) :
  {mask_in_range self mask} + {~ mask_in_range self mask}.
Proof.
  destruct mask as [[m0 m1] m2]. unfold mask_in_range.
  apply Forall_dec. intro m. apply lt_dec.
Qed.

Section Decode.
Variable np_exp : Q -> Q.
Variable self : PostprocessYOLO.
Variable output_reshaped : Reshaped.
Variable mask : nat * nat * nat.

Lemma _process_feats_IndexError :
  ~ mask_in_range self mask ->
  _process_feats np_exp self output_reshaped mask = Raise IndexError.
Proof.
  destruct mask as [[m0 m1] m2]. intro H.
  unfold _process_feats; cbv zeta.
  rewrite lookup_anchors_Raise by exact H. reflexivity.
Qed.

Lemma _process_feats_ValueError :
  mask_in_range self mask ->
  ~ (0 < grid_w output_reshaped /\ grid_h output_reshaped = grid_w output_reshaped) ->
  _process_feats np_exp self output_reshaped mask = Raise ValueError.
Proof.
  destruct mask as [[m0 m1] m2]. intros Hm Hg.
  unfold _process_feats; cbv zeta.
  rewrite lookup_anchors by exact Hm. cbn [bind].
  rewrite concat_repeat_length, length_seq.
  rewrite (flat_map_const_length _ (grid_h output_reshaped)), length_seq
    by (intros; apply repeat_length).
  unfold reshape_infer, reshape_check. cbn [fold_right].
  destruct (grid_w output_reshaped) as [|gw]; [reflexivity|].
  rewrite Nat.Div0.mod_mul. cbn [Nat.eqb orb negb bind].
  destruct (_ =? _) eqn:E1; [|reflexivity]. cbn [bind].
  apply Nat.eqb_eq in E1. exfalso. apply Hg. split; [lia | nia].
Qed.

Lemma _process_feats_Ok :
  mask_in_range self mask ->
  0 < grid_w output_reshaped ->
  grid_h output_reshaped = grid_w output_reshaped ->
  exists r, _process_feats np_exp self output_reshaped mask = Ok r.
Proof.
  destruct mask as [[m0 m1] m2]. intros Hm Hg Hs.
  unfold _process_feats; cbv zeta.
  rewrite lookup_anchors by exact Hm. cbn [bind].
  rewrite concat_repeat_length, length_seq.
  rewrite (flat_map_const_length _ (grid_h output_reshaped)), length_seq
    by (intros; apply repeat_length).
  unfold reshape_infer, reshape_check. cbn [fold_right]. rewrite Hs.
  destruct (grid_w output_reshaped) as [|gw]; [lia|].
  rewrite Nat.Div0.mod_mul. cbn [Nat.eqb orb negb bind].
  replace (S gw * S gw =? S gw * (S gw * (1 * (1 * 1)))) with true
    by (symmetry; apply Nat.eqb_eq; ring).
  cbn [bind]. eexists; reflexivity.
Qed.

Lemma _process_feats_Ok_inv (r : list Box * list Q * list (list Q)) :
  _process_feats np_exp self output_reshaped mask = Ok r ->
  mask_in_range self mask /\
  0 < grid_w output_reshaped /\
  grid_h output_reshaped = grid_w output_reshaped.
Proof.
  intro Hr.
  destruct (mask_in_range_dec self mask) as [Hm|Hm];
    [|rewrite _process_feats_IndexError in Hr by exact Hm; discriminate].
  split; [exact Hm|].
  destruct (lt_dec 0 (grid_w output_reshaped)) as [Hg|Hg];
    [destruct (Nat.eq_dec (grid_h output_reshaped) (grid_w output_reshaped))
      as [Hs|Hs]; [tauto|]|];
    rewrite _process_feats_ValueError in Hr by tauto; discriminate.
Qed.

(** X3.  [_process_feats] returns for a mask whose indices are within [anchors]
    and a square, non-empty grid, and only then: an index out of range
    raises [IndexError]; otherwise a grid that is empty or not square raises
    [ValueError], because the column and row offsets are tiled
    [grid_w * grid_w] and [grid_h * grid_h] times. *)
Theorem process_feats_outcome :
  ((exists r, _process_feats np_exp self output_reshaped mask = Ok r) <->
   mask_in_range self mask /\
   0 < grid_w output_reshaped /\
   grid_h output_reshaped = grid_w output_reshaped)
  /\ (~ mask_in_range self mask ->
      _process_feats np_exp self output_reshaped mask = Raise IndexError)
  /\ (mask_in_range self mask ->
      ~ (0 < grid_w output_reshaped /\
         grid_h output_reshaped = grid_w output_reshaped) ->
      _process_feats np_exp self output_reshaped mask = Raise ValueError).
Proof.
  split; [|split].
  - split.
    + intros [r Hr]. now apply _process_feats_Ok_inv in Hr.
    + intros [Hm [Hg Hs]]. now apply _process_feats_Ok.
  - apply _process_feats_IndexError.
  - apply _process_feats_ValueError.
Qed.

End Decode.

(** ** The decode of one cell *)

Lemma zip_with_length {A B C : Type} (f : A -> B -> C) (a : list A) (b : list B) :
  length (zip_with f a b) = Nat.min (length a) (length b).
Proof.
  revert b; induction a as [|x a IH]; intros [|y b]; simpl; auto.
Qed.

Lemma zip_with_nth {A B C : Type} (f : A -> B -> C) (da : A) (db : B) (d : C)
      (a : list A) (b : list B) (k : nat) :
  k < length a -> k < length b ->
  nth k (zip_with f a b) d = f (nth k a da) (nth k b db).
Proof.
  revert b k; induction a as [|x a IH]; intros [|y b] k Ha Hb; simpl in *;
    try lia.
  destruct k as [|k]; [reflexivity|]. apply IH; lia.
Qed.

Lemma map_nth_lt {A B : Type} (f : A -> B) (da : A) (d : B) (l : list A) (k : nat) :
  k < length l -> nth k (map f l) d = f (nth k l da).
Proof.
  intro H. rewrite (nth_indep _ d (f da)) by (now rewrite length_map).
  apply map_nth.
Qed.

Lemma concat_repeat_nth {A : Type} (l : list A) (n i j : nat) (d : A) :
  i < n -> j < length l ->
  nth (i * length l + j) (concat (repeat l n)) d = nth j l d.
Proof.
  revert i; induction n as [|n IH]; intros i Hi Hj; [lia|]. simpl.
  destruct i as [|i].
  - simpl. now rewrite app_nth1.
  - rewrite app_nth2 by (simpl; lia).
    replace (S i * length l + j - length l) with (i * length l + j)
      by (simpl; lia).
    apply IH; lia.
Qed.

Lemma repeat3_length (l : list nat) : length (repeat3 l) = length l * 3.
Proof.
  unfold repeat3. apply flat_map_const_length. reflexivity.
Qed.

Lemma repeat3_nth (l : list nat) (i a d : nat) :
  i < length l -> a < 3 -> nth (i * 3 + a) (repeat3 l) d = nth i l d.
Proof.
  intros Hi Ha. unfold repeat3.
  rewrite (flat_map_const_nth _ 3 l d d i a) by auto.
  destruct a as [|[|[|a]]]; simpl; try reflexivity; lia.
Qed.

Lemma col_nth (g row col : nat) :
  row < g -> col < g ->
  nth (row * g + col) (concat (repeat (seq 0 g) g)) 0 = col.
Proof.
  intros Hr Hc.
  pose proof (concat_repeat_nth (seq 0 g) g row col 0) as H.
  rewrite length_seq in H. rewrite H by assumption. now rewrite seq_nth.
Qed.

Lemma row_nth (g row col : nat) :
  row < g -> col < g ->
  nth (row * g + col) (flat_map (fun r => repeat r g) (seq 0 g)) 0 = row.
Proof.
  intros Hr Hc.
  rewrite (flat_map_const_nth _ g (seq 0 g) 0 0 row col)
    by (rewrite ?length_seq; auto; intros; apply repeat_length).
  rewrite seq_nth by exact Hr. simpl. apply nth_repeat_lt. exact Hc.
Qed.

Section DecodeCells.
Variable np_exp : Q -> Q.
Variable self : PostprocessYOLO.
Variable o : Reshaped.
Variables m0 m1 m2 : nat.

Lemma _process_feats_value :
  mask_in_range self (m0, m1, m2) ->
  0 < grid_w o -> grid_h o = grid_w o ->
  _process_feats np_exp self o (m0, m1, m2)
  = let box_xy :=
      map (fun p => (fst p / of_nat (grid_w o), snd p / of_nat (grid_h o))%Q)
        (zip_with (fun p g => (fst p + of_nat (fst g), snd p + of_nat (snd g))%Q)
           (map (fun v => (sigmoid np_exp (nth 0 v 0%Q),
                           sigmoid np_exp (nth 1 v 0%Q))) (cells o))
           (combine (repeat3 (concat (repeat (seq 0 (grid_w o)) (grid_w o))))
                    (repeat3 (flat_map (fun r => repeat r (grid_h o))
                                       (seq 0 (grid_h o)))))) in
    let box_wh :=
      map (fun p => (fst p / inject_Z (Zpos (fst (input_resolution_yolo self))),
                     snd p / inject_Z (Zpos (snd (input_resolution_yolo self))))%Q)
        (zip_with (fun v a => (sigmoid np_exp (nth 2 v 0%Q) * fst a,
                               sigmoid np_exp (nth 3 v 0%Q) * snd a)%Q)
           (cells o) (broadcast_anchors (grid_h o * grid_w o) [nth m0 (anchors
               self) (0%Q, 0%Q); nth m1 (anchors self) (0%Q, 0%Q);
       nth m2 (anchors self) (0%Q, 0%Q)])) in
    Ok (zip_with (fun p s => mkBox (fst p) (snd p) (fst s) (snd s))
          (zip_with (fun p s => (fst p - fst s / 2, snd p - snd s / 2)%Q)
                    box_xy box_wh)
          box_wh,
        map (fun v => sigmoid np_exp (nth 4 v 0%Q)) (cells o),
        map (fun v => map (sigmoid np_exp) (skipn 5 v)) (cells o)).
Proof.
  intros Hm Hg Hs.
  unfold _process_feats; cbv zeta.
  rewrite lookup_anchors by exact Hm. cbn [bind].
  rewrite concat_repeat_length, length_seq.
  rewrite (flat_map_const_length _ (grid_h o)), length_seq
    by (intros; apply repeat_length).
  unfold reshape_infer, reshape_check. cbn [fold_right]. rewrite Hs.
  destruct (grid_w o) as [|gw]; [lia|].
  rewrite Nat.Div0.mod_mul. cbn [Nat.eqb orb negb bind].
  replace (S gw * S gw =? S gw * (S gw * (1 * (1 * 1)))) with true
    by (symmetry; apply Nat.eqb_eq; ring).
  reflexivity.
Qed.

Lemma _process_feats_cells
        (boxes : list Box) (box_confidence : list Q)
        (box_class_probs : list (list Q)) :
  _process_feats np_exp self o (m0, m1, m2)
  = Ok (boxes, box_confidence, box_class_probs) ->
  length (cells o) = grid_h o * grid_w o * 3 ->
  length boxes = length (cells o)
  /\ box_confidence = map (fun v => sigmoid np_exp (nth 4 v 0%Q)) (cells o)
  /\ box_class_probs = map (fun v => map (sigmoid np_exp) (skipn 5 v)) (cells o)
  /\ forall row col a,
      row < grid_h o -> col < grid_w o -> a < 3 ->
      nth ((row * grid_w o + col) * 3 + a) boxes box0
      = decode_cell np_exp self
                    (nth (nth a [m0; m1; m2] 0) (anchors self) (0%Q, 0%Q))
                    (grid_h o) (grid_w o) row col
                    (nth ((row * grid_w o + col) * 3 + a) (cells o) []).
Proof.
  intros Hok Hcells.
  destruct (_process_feats_Ok_inv np_exp self o (m0, m1, m2) _ Hok)
    as [Hm [Hg Hs]].
  rewrite (_process_feats_value Hm Hg Hs) in Hok. cbv zeta in Hok.
  injection Hok as <- <- <-.
  assert (Hcol : length (repeat3 (concat (repeat (seq 0 (grid_w o)) (grid_w o)))) =
      length (cells o))
    by (rewrite repeat3_length, concat_repeat_length, length_seq, Hcells, Hs;
        reflexivity).
  assert (Hrow : length (repeat3 (flat_map (fun r => repeat r (grid_h o))
                                           (seq 0 (grid_h o)))) = length (cells o)).
  { rewrite repeat3_length, (flat_map_const_length _ (grid_h o)), length_seq
      by (intros; apply repeat_length).
    rewrite Hcells, Hs. reflexivity. }
  assert (Hanch : length (broadcast_anchors (grid_h o * grid_w o) [nth m0 (anchors
      self) (0%Q, 0%Q); nth m1 (anchors self) (0%Q, 0%Q);
       nth m2 (anchors self) (0%Q, 0%Q)]) = length (cells o)).
  { unfold broadcast_anchors. rewrite concat_repeat_length. simpl. lia. }
  assert (Hxy : length (zip_with
                  (fun p g => (fst p + of_nat (fst g), snd p + of_nat (snd g))%Q)
                  (map (fun v => (sigmoid np_exp (nth 0 v 0%Q),
                                  sigmoid np_exp (nth 1 v 0%Q))) (cells o))
                  (combine (repeat3 (concat (repeat (seq 0 (grid_w o)) (grid_w o))))
                           (repeat3 (flat_map (fun r => repeat r (grid_h o))
                                              (seq 0 (grid_h o)))))) = length (cells o)).
  { rewrite zip_with_length, length_map, length_combine, Hcol, Hrow.
    lia. }
  assert (Hwh : length (zip_with
                  (fun v a => (sigmoid np_exp (nth 2 v 0%Q) * fst a,
                               sigmoid np_exp (nth 3 v 0%Q) * snd a)%Q)
                  (cells o) (broadcast_anchors (grid_h o * grid_w o) [nth m0
                      (anchors self) (0%Q, 0%Q); nth m1 (anchors self) (0%Q, 0%Q);
       nth m2 (anchors self) (0%Q, 0%Q)])) = length (cells o)).
  { rewrite zip_with_length, Hanch. lia. }
  split; [|split; [reflexivity|split; [reflexivity|]]].
  - rewrite zip_with_length. rewrite zip_with_length.
    rewrite !length_map, Hxy, Hwh. lia.
  - intros row col a Hr Hc Ha.
    set (k := (row * grid_w o + col) * 3 + a).
    assert (Hrc : row * grid_w o + col < grid_h o * grid_w o)
      by now apply index_lt.
    assert (Hk : k < length (cells o)) by (rewrite Hcells; now apply index_lt).
    assert (Ecol : nth k (repeat3 (concat (repeat (seq 0 (grid_w o)) (grid_w o)))) 0
                   = col).
    { unfold k. rewrite repeat3_nth; [| |exact Ha].
      - apply col_nth; [rewrite <- Hs|]; assumption.
      - rewrite concat_repeat_length, length_seq.
        rewrite Hs in Hrc. exact Hrc. }
    assert (Erow : nth k (repeat3 (flat_map (fun r => repeat r (grid_h o))
                                            (seq 0 (grid_h o)))) 0 = row).
    { unfold k. rewrite repeat3_nth; [| |exact Ha].
      - rewrite <- Hs. apply row_nth; [|rewrite Hs]; assumption.
      - rewrite (flat_map_const_length _ (grid_h o)), length_seq
          by (intros; apply repeat_length).
        rewrite Hs. rewrite Hs in Hrc. exact Hrc. }
    assert (Eanch : nth k (broadcast_anchors (grid_h o * grid_w o) [nth m0 (anchors
        self) (0%Q, 0%Q); nth m1 (anchors self) (0%Q, 0%Q);
       nth m2 (anchors self) (0%Q, 0%Q)])
                        (0%Q, 0%Q)
                    = nth (nth a [m0; m1; m2] 0) (anchors self) (0%Q, 0%Q)).
    { unfold broadcast_anchors, k.
      pose proof (concat_repeat_nth [nth m0 (anchors self) (0%Q, 0%Q); nth m1
          (anchors self) (0%Q, 0%Q);
       nth m2 (anchors self) (0%Q, 0%Q)] (grid_h o * grid_w o)
                    (row * grid_w o + col) a (0%Q, 0%Q)) as Hnth.
      change (length [nth m0 (anchors self) (0%Q, 0%Q); nth m1 (anchors self) (0%Q, 0%Q);
       nth m2 (anchors self) (0%Q, 0%Q)])
        with 3 in Hnth. rewrite Hnth by assumption.
      destruct a as [|[|[|a]]]; try reflexivity; lia. }
    rewrite (zip_with_nth _ (0%Q, 0%Q) (0%Q, 0%Q))
      by (rewrite ?zip_with_length, ?length_map, ?Hxy, ?Hwh; lia).
    rewrite (zip_with_nth _ (0%Q, 0%Q) (0%Q, 0%Q))
      by (rewrite ?length_map, ?Hxy, ?Hwh; lia).
    rewrite !(map_nth_lt _ (0%Q, 0%Q)) by (rewrite ?Hxy, ?Hwh; lia).
    rewrite (zip_with_nth _ (0%Q, 0%Q) (0, 0))
      by (rewrite ?length_map, ?length_combine, ?Hcol, ?Hrow; lia).
    rewrite (zip_with_nth _ [] (0%Q, 0%Q)) by (rewrite ?Hanch; lia).
    rewrite (map_nth_lt _ []) by exact Hk.
    rewrite combine_nth by (now rewrite Hcol, Hrow).
    rewrite Ecol, Erow, Eanch.
    reflexivity.
Qed.

(** X4.  What [_process_feats] returns for a grid whose cells are all there: one
    box, one objectness and one probability vector per cell, and the box of
    the cell in row [row], column [col] and anchor slot [a] is [decode_cell]
    of that cell, with the offsets [(col, row)] and the anchor of the mask
    entry [a]. *)
Theorem process_feats_decodes_each_cell
        (boxes : list Box) (box_confidence : list Q)
        (box_class_probs : list (list Q)) :
  _process_feats np_exp self o (m0, m1, m2)
  = Ok (boxes, box_confidence, box_class_probs) ->
  length (cells o) = grid_h o * grid_w o * 3 ->
  length boxes = length (cells o)
  /\ box_confidence = map (fun v => sigmoid np_exp (nth 4 v 0%Q)) (cells o)
  /\ box_class_probs = map (fun v => map (sigmoid np_exp) (skipn 5 v)) (cells o)
  /\ forall row col a,
      row < grid_h o -> col < grid_w o -> a < 3 ->
      nth ((row * grid_w o + col) * 3 + a) boxes box0
      = decode_cell np_exp self
                    (nth (nth a [m0; m1; m2] 0) (anchors self) (0%Q, 0%Q))
                    (grid_h o) (grid_w o) row col
                    (nth ((row * grid_w o + col) * 3 + a) (cells o) []).
Proof. apply _process_feats_cells. Qed.

End DecodeCells.

(** ** Ranges of the decoded values *)

Section Ranges.
Variable np_exp : Q -> Q.
Hypothesis np_exp_nonneg : forall v, (0 <= np_exp v)%Q.

Lemma sigmoid_range (v : Q) : (0 <= sigmoid np_exp v <= 1)%Q.
Proof.
  unfold sigmoid. pose proof (np_exp_nonneg (- v)) as H.
  assert (Hpos : (0 < 1 + np_exp (- v))%Q) by lra.
  split.
  - apply Qle_shift_div_l; [exact Hpos | lra].
  - apply Qle_shift_div_r; [exact Hpos | lra].
Qed.

Lemma of_nat_pos (n : nat) : 0 < n -> (0 < of_nat n)%Q.
Proof.
  intro H. unfold of_nat. change 0%Q with (inject_Z 0).
  rewrite <- Zlt_Qlt. lia.
Qed.

Lemma of_nat_S (n : nat) : (of_nat (S n) == of_nat n + 1)%Q.
Proof.
  unfold of_nat. change 1%Q with (inject_Z 1).
  rewrite <- inject_Z_plus. apply inject_Z_injective. lia.
Qed.

Lemma Qdiv_le_compat (a b c : Q) : (0 < c -> a <= b -> a / c <= b / c)%Q.
Proof.
  intros Hc Hab. unfold Qdiv. apply Qmult_le_compat_r; [exact Hab|].
  apply Qlt_le_weak, Qinv_lt_0_compat, Hc.
Qed.

Lemma decode_cell_centre (self : PostprocessYOLO) (anchor : Q * Q)
      (grid_h grid_w row col : nat) (v : list Q) :
  0 < grid_h -> 0 < grid_w ->
  let b := decode_cell np_exp self anchor grid_h grid_w row col v in
  (of_nat col / of_nat grid_w <= bx b + bw b / 2
   /\ bx b + bw b / 2 <= of_nat (S col) / of_nat grid_w
   /\ of_nat row / of_nat grid_h <= by_ b + bh b / 2
   /\ by_ b + bh b / 2 <= of_nat (S row) / of_nat grid_h)%Q.
Proof.
  intros Hh Hw b. subst b. unfold decode_cell; cbv zeta; cbn [bx by_ bw bh].
  set (w := (sigmoid np_exp (nth 2 v 0) * fst anchor / _)%Q).
  set (h := (sigmoid np_exp (nth 3 v 0) * snd anchor / _)%Q).
  pose proof (sigmoid_range (nth 0 v 0%Q)) as [Hx0 Hx1].
  pose proof (sigmoid_range (nth 1 v 0%Q)) as [Hy0 Hy1].
  pose proof (of_nat_pos _ Hh) as Ph. pose proof (of_nat_pos _ Hw) as Pw.
  assert (Ex : ((sigmoid np_exp (nth 0 v 0) + of_nat col) / of_nat grid_w
                - w / 2 + w / 2
                == (sigmoid np_exp (nth 0 v 0) + of_nat col) / of_nat grid_w)%Q)
    by ring.
  assert (Ey : ((sigmoid np_exp (nth 1 v 0) + of_nat row) / of_nat grid_h
                - h / 2 + h / 2
                == (sigmoid np_exp (nth 1 v 0) + of_nat row) / of_nat grid_h)%Q)
    by ring.
  rewrite Ex, Ey, !of_nat_S.
  repeat split; apply Qdiv_le_compat; try assumption; lra.
Qed.

End Ranges.

Lemma _process_feats_in_range
        (np_exp : Q -> Q) (self : PostprocessYOLO) (o : Reshaped)
        (m0 m1 m2 : nat) (boxes : list Box) (box_confidence : list Q)
        (box_class_probs : list (list Q)) :
  (forall v, (0 <= np_exp v)%Q) ->
  _process_feats np_exp self o (m0, m1, m2)
  = Ok (boxes, box_confidence, box_class_probs) ->
  length (cells o) = grid_h o * grid_w o * 3 ->
  Forall (fun c => (0 <= c <= 1)%Q) box_confidence
  /\ Forall (Forall (fun p => (0 <= p <= 1)%Q)) box_class_probs
  /\ forall row col a,
      row < grid_h o -> col < grid_w o -> a < 3 ->
      let b := nth ((row * grid_w o + col) * 3 + a) boxes box0 in
      (of_nat col / of_nat (grid_w o) <= bx b + bw b / 2
       /\ bx b + bw b / 2 <= of_nat (S col) / of_nat (grid_w o)
       /\ of_nat row / of_nat (grid_h o) <= by_ b + bh b / 2
       /\ by_ b + bh b / 2 <= of_nat (S row) / of_nat (grid_h o))%Q.
Proof.
  intros Hexp Hok Hcells.
  destruct (_process_feats_cells np_exp self o m0 m1 m2 _ _ _
              Hok Hcells) as [_ [-> [-> Hbox]]].
  split; [|split].
  - apply Forall_forall; intros c Hc. apply in_map_iff in Hc.
    destruct Hc as [v [<- _]]. now apply sigmoid_range.
  - apply Forall_forall; intros ps Hps. apply in_map_iff in Hps.
    destruct Hps as [v [<- _]].
    apply Forall_forall; intros p Hp. apply in_map_iff in Hp.
    destruct Hp as [x [<- _]]. now apply sigmoid_range.
  - intros row col a Hr Hc Ha b. subst b. rewrite Hbox by assumption.
    apply decode_cell_centre; [exact Hexp | lia | lia].
Qed.


(** ** Which inputs [process] accepts *)

Lemma for_each_app {A B : Type} (f : A -> result B) (l l' : list A) :
  for_each f (l ++ l')
  = (ys <- for_each f l ;; ys' <- for_each f l' ;; Ok (ys ++ ys')).
Proof.
  induction l as [|x l IH]; simpl.
  - destruct (for_each f l'); reflexivity.
  - destruct (f x) as [y|e]; simpl; [|reflexivity].
    rewrite IH. destruct (for_each f l) as [ys|e]; simpl; [|reflexivity].
    destruct (for_each f l') as [ys'|e]; reflexivity.
Qed.

Lemma for_each_length {A B : Type} (f : A -> result B) (l : list A) (ys : list B) :
  for_each f l = Ok ys -> length ys = length l.
Proof.
  intro H. apply for_each_Ok in H. symmetry. eapply Forall2_length, H.
Qed.

Lemma for_each_total {A B : Type} (f : A -> result B) (l : list A) :
  (forall x, In x l -> exists y, f x = Ok y) ->
  exists ys, for_each f l = Ok ys.
Proof.
  induction l as [|x l IH]; intro H; simpl; [eexists; reflexivity|].
  destruct (H x (or_introl eq_refl)) as [y Hy]. rewrite Hy; simpl.
  destruct IH as [ys Hys]; [intros z Hz; apply H; now right|].
  rewrite Hys; simpl. eexists; reflexivity.
Qed.

Lemma Forall2_In_r {A B : Type} (R : A -> B -> Prop) (l : list A) (l' : list B)
      (y : B) :
  Forall2 R l l' -> In y l' -> exists x, In x l /\ R x y.
Proof.
  induction 1 as [|x y' l l' Hxy _ IH]; intro Hin; [destruct Hin|].
  destruct Hin as [->|Hin].
  - exists x. split; [now left | exact Hxy].
  - destruct (IH Hin) as [x' [Hx' Hr]]. exists x'. split; [now right | exact Hr].
Qed.

Lemma Forall2_nth_error_l {A B : Type} (R : A -> B -> Prop) (l : list A)
      (l' : list B) (i : nat) (x : A) :
  Forall2 R l l' -> nth_error l i = Some x ->
  exists y, nth_error l' i = Some y /\ R x y.
Proof.
  intro H; revert i; induction H as [|x0 y0 l l' Hxy _ IH]; intros i Hi.
  - destruct i; discriminate.
  - destruct i as [|i]; simpl in *.
    + injection Hi as <-. exists y0. auto.
    + apply IH, Hi.
Qed.

Lemma nth_error_combine_In {A B : Type} (l : list A) (m : list B) (i : nat)
      (x : A) (y : B) :
  nth_error l i = Some x -> nth_error m i = Some y -> In (x, y) (combine l m).
Proof.
  revert m i; induction l as [|x0 l IH]; intros [|y0 m] [|i] Hx Hy;
    simpl in *; try discriminate.
  - injection Hx as <-. injection Hy as <-. now left.
  - right. eapply IH; eassumption.
Qed.

Lemma combine_app_longer {A B : Type} (l l' : list A) (m : list B) :
  length m <= length l -> combine (l ++ l') m = combine l m.
Proof.
  revert m; induction l as [|x l IH]; intros [|y m] H; simpl in *;
    try reflexivity; try lia.
  - destruct l'; reflexivity.
  - f_equal. apply IH. lia.
Qed.

Section Accept.
Variable np_exp : Q -> Q.
Variable set_iter : list nat -> list nat.
Variable self : PostprocessYOLO.
Variable resolution_raw : Z * Z.

(** X6.  With no tensor, or with no mask configured, no scale is processed and
    [np.concatenate] of the empty list of candidates raises [ValueError]. *)
Theorem process_without_scales_raises (outputs : list Tensor)
        (outputs_reshaped : list Reshaped) :
  for_each _reshape_output outputs = Ok outputs_reshaped ->
  outputs = [] \/ masks self = [] ->
  process np_exp set_iter self outputs resolution_raw = Raise ValueError.
Proof.
  intros Hr Hnil. unfold process, _process_yolo_output, candidates.
  rewrite Hr. cbn [bind].
  assert (E : combine outputs_reshaped (masks self) = []).
  { destruct Hnil as [->| ->].
    - simpl in Hr. injection Hr as <-. reflexivity.
    - apply combine_nil. }
  rewrite E. reflexivity.
Qed.

(** X7.  Tensors beyond the number of masks only have to pass the reshape: they
    are paired with no mask and change nothing in the result. *)
Theorem process_ignores_extra_tensors (outputs extra : list Tensor)
        (extra_reshaped : list Reshaped) :
  length (masks self) <= length outputs ->
  for_each _reshape_output extra = Ok extra_reshaped ->
  process np_exp set_iter self (outputs ++ extra) resolution_raw
  = process np_exp set_iter self outputs resolution_raw.
Proof.
  intros Hlen He. unfold process. rewrite for_each_app, He.
  destruct (for_each _reshape_output outputs) as [rs|e] eqn:Er; simpl;
    [|reflexivity].
  unfold _process_yolo_output, candidates.
  rewrite combine_app_longer; [reflexivity|].
  apply for_each_length in Er. lia.
Qed.

End Accept.

Section Accept2.
Variable np_exp : Q -> Q.
Variable set_iter : list nat -> list nat.
Variable self : PostprocessYOLO.
Variable resolution_raw : Z * Z.

Lemma candidates_per_scale (outputs_reshaped : list Reshaped) :
  candidates np_exp self outputs_reshaped
  = (per_scale <- for_each (decode_and_filter np_exp self)
                           (combine outputs_reshaped (masks self)) ;;
     boxes <- concatenate (map (fun r => fst (fst r)) per_scale) ;;
     categories <- concatenate (map (fun r => snd (fst r)) per_scale) ;;
     confidences <- concatenate (map (fun r => snd r) per_scale) ;;
     Ok (boxes, categories, confidences)).
Proof. reflexivity. Qed.

Lemma decode_and_filter_Ok (o : Reshaped) (mask : nat * nat * nat) :
  mask_in_range self mask -> 0 < grid_w o -> grid_h o = grid_w o ->
  exists y, decode_and_filter np_exp self (o, mask) = Ok y.
Proof.
  intros Hm Hg Hs. unfold decode_and_filter.
  destruct (_process_feats_Ok np_exp self o mask Hm Hg Hs) as [[[b c] p] E].
  rewrite E. simpl. eexists; reflexivity.
Qed.

Lemma decode_and_filter_Raise (o : Reshaped) (mask : nat * nat * nat) (e : exn) :
  mask_in_range self mask ->
  decode_and_filter np_exp self (o, mask) = Raise e -> e = ValueError.
Proof.
  intros Hm. unfold decode_and_filter.
  destruct (lt_dec 0 (grid_w o)) as [Hg|Hg];
    [destruct (Nat.eq_dec (grid_h o) (grid_w o)) as [Hs|Hs]|].
  - destruct (_process_feats_Ok np_exp self o mask Hm Hg Hs) as [[[b c] p] E].
    rewrite E. simpl. discriminate.
  - rewrite _process_feats_ValueError by tauto. simpl. congruence.
  - rewrite _process_feats_ValueError by tauto. simpl. congruence.
Qed.

Lemma process_accepts (outputs : list Tensor) :
  outputs <> [] ->
  masks self <> [] ->
  Forall (mask_in_range self) (masks self) ->
  Forall (fun t => t_n t = 1 /\ t_c t = 3 * (5 + 80) /\
                   t_h t = t_w t /\ 0 < t_w t) outputs ->
  exists r, process np_exp set_iter self outputs resolution_raw = Ok r.
Proof.
  intros Hout Hmasks Hrange Hshape.
  rewrite Forall_forall in Hrange, Hshape.
  destruct (for_each_total _reshape_output outputs) as [rs Hrs].
  { intros t Ht. destruct (Hshape t Ht) as [Hn [Hc [Hs Hg]]].
    apply _reshape_output_accepts. rewrite Hn, Hc. lia. }
  unfold process, _process_yolo_output. rewrite Hrs. cbn [bind].
  rewrite candidates_per_scale.
  pose proof (for_each_length _ _ _ Hrs) as Hlen.
  pose proof (for_each_Ok _ _ _ Hrs) as Hall.
  destruct (for_each_total (decode_and_filter np_exp self) (combine rs (masks self)))
    as [per_scale Hps].
  { intros [o m] Hin. pose proof (in_combine_l _ _ _ _ Hin) as Ho.
    pose proof (in_combine_r _ _ _ _ Hin) as Hm.
    destruct (Forall2_In_r _ _ _ _ Hall Ho) as [t [Ht Hto]].
    destruct (Hshape t Ht) as [_ [_ [Hs Hg]]].
    destruct (_reshape_output_cells t o Hto) as [Eh [Ew _]].
    apply decode_and_filter_Ok; [now apply Hrange | lia | lia]. }
  rewrite Hps. cbn [bind].
  assert (Hne : per_scale <> []).
  { apply for_each_length in Hps. rewrite length_combine in Hps.
    destruct outputs; [congruence|]. destruct (masks self); [congruence|].
    destruct rs; [discriminate|]. destruct per_scale; [discriminate|].
    discriminate. }
  destruct per_scale as [|p ps]; [congruence|]. cbn [map concatenate bind].
  destruct (suppress_and_assemble_aligned set_iter self
              (concat (fst (fst p) :: map (fun r => fst (fst r)) ps),
               concat (snd (fst p) :: map (fun r => snd (fst r)) ps),
               concat (snd p :: map (fun r => snd r) ps)) resolution_raw)
    as [r [Hr _]].
  exists r. exact Hr.
Qed.

(** X8.  Well-formed input is never rejected: at least one tensor and one mask,
    mask indices within [anchors], and tensors of shape [(1, 255, g, g)] with
    [g > 0] make [process] return a result. *)
Theorem process_accepts_well_formed (outputs : list Tensor) :
  outputs <> [] ->
  masks self <> [] ->
  Forall (mask_in_range self) (masks self) ->
  Forall (fun t => t_n t = 1 /\ t_c t = 3 * (5 + 80) /\
                   t_h t = t_w t /\ 0 < t_w t) outputs ->
  exists r, process np_exp set_iter self outputs resolution_raw = Ok r.
Proof. apply process_accepts. Qed.

(** X9.  A paired tensor whose grid is empty or not square is rejected by the
    decode: with mask indices within [anchors] and tensors that pass the
    reshape, [process] raises [ValueError]. *)
Theorem process_rejects_non_square_grid (outputs : list Tensor)
        (outputs_reshaped : list Reshaped) (i : nat) (t : Tensor) :
  Forall (mask_in_range self) (masks self) ->
  for_each _reshape_output outputs = Ok outputs_reshaped ->
  nth_error outputs i = Some t ->
  i < length (masks self) ->
  ~ (0 < t_w t /\ t_h t = t_w t) ->
  process np_exp set_iter self outputs resolution_raw = Raise ValueError.
Proof.
  intros Hrange Hrs Ht Hi Hbad. rewrite Forall_forall in Hrange.
  unfold process, _process_yolo_output. rewrite Hrs. cbn [bind].
  rewrite candidates_per_scale.
  destruct (Forall2_nth_error_l _ _ _ _ _ (for_each_Ok _ _ _ Hrs) Ht)
    as [o [Ho Hto]].
  destruct (nth_error (masks self) i) as [m|] eqn:Em;
    [|apply nth_error_None in Em; lia].
  assert (Hin : In (o, m) (combine outputs_reshaped (masks self)))
    by (eapply nth_error_combine_In; eassumption).
  destruct (_reshape_output_cells t o Hto) as [Eh [Ew _]].
  rewrite (for_each_Raise (decode_and_filter np_exp self) _ ValueError);
    [reflexivity | |].
  - exists (o, m). split; [exact Hin|]. unfold decode_and_filter.
    rewrite _process_feats_ValueError;
      [reflexivity | apply Hrange; eapply nth_error_In; eassumption
       | rewrite Eh, Ew; exact Hbad].
  - intros [o' m'] e' Hin'. apply decode_and_filter_Raise.
    apply Hrange. eapply in_combine_r; eassumption.
Qed.

End Accept2.

(** ** What the suppression removes *)

Lemma ForallOrdPairs_of_all {A : Type} (P : A -> A -> Prop) (l : list A) :
  NoDup l ->
  (forall x y, In x l -> In y l -> x <> y -> P x y) ->
  ForallOrdPairs P l.
Proof.
  induction 1 as [|x l Hx Hn IH]; intro H; constructor.
  - apply Forall_forall; intros y Hy. apply H; [now left | now right|].
    intros ->. contradiction.
  - apply IH. intros a b Ha Hb. apply H; now right.
Qed.

Section Removal.
Variable self : PostprocessYOLO.
Variable boxes : list Box.

Lemma nms_loop_cause (R : nat -> nat -> Prop) (fuel : nat) (ordered : list nat) :
  length ordered <= fuel ->
  StronglySorted R ordered ->
  forall j, In j ordered ->
    In j (nms_loop self boxes fuel ordered []) \/
    exists i, In i (nms_loop self boxes fuel ordered []) /\
              iou_within self boxes i j = false /\ R i j.
Proof.
  revert ordered; induction fuel as [|fuel IH]; intros ordered Hlen Hs j Hj.
  - destruct ordered; [destruct Hj | simpl in Hlen; lia].
  - destruct ordered as [|i rest]; [destruct Hj|].
    rewrite nms_loop_cons. inversion Hs as [|? ? Hrest Hi]; subst.
    destruct Hj as [<-|Hj]; [left; now left|].
    destruct (iou_within self boxes i j) eqn:E.
    + assert (Hf : In j (filter (iou_within self boxes i) rest))
        by (apply filter_In; auto).
      destruct (IH (filter (iou_within self boxes i) rest)) with (j := j)
        as [Hk|[i' [Hk [Hi' HR]]]]; try assumption.
      * pose proof (filter_length_le (iou_within self boxes i) rest).
        simpl in Hlen. lia.
      * now apply StronglySorted_filter.
      * left. now right.
      * right. exists i'. split; [now right | auto].
    + right. exists i. split; [now left|]. split; [exact E|].
      rewrite Forall_forall in Hi. now apply Hi.
Qed.

Lemma nms_loop_keeps_all (fuel : nat) (ordered : list nat) :
  length ordered <= fuel ->
  ForallOrdPairs (fun i j => iou_within self boxes i j = true) ordered ->
  nms_loop self boxes fuel ordered [] = ordered.
Proof.
  revert ordered; induction fuel as [|fuel IH]; intros ordered Hlen Hp.
  - destruct ordered; [reflexivity | simpl in Hlen; lia].
  - destruct ordered as [|i rest]; [reflexivity|].
    rewrite nms_loop_cons. inversion Hp as [|? ? Hi Hrest]; subst.
    assert (E : filter (iou_within self boxes i) rest = rest).
    { clear -Hi. induction Hi as [|j l Hj _ IHl]; simpl; [reflexivity|].
      rewrite Hj. now f_equal. }
    rewrite E. f_equal. apply IH; [simpl in Hlen; lia | exact Hrest].
Qed.

(** X10.  Nothing is dropped without a cause: an index of the group that is not
    kept overlaps a kept index of at least its confidence beyond the
    threshold (their IoU test fails). *)
Theorem nms_dropped_index_has_a_kept_cause
        (box_confidences : list Q) (j : nat) :
  j < length box_confidences ->
  ~ In j (_nms_boxes self boxes box_confidences) ->
  exists i,
    In i (_nms_boxes self boxes box_confidences)
    /\ less_equal (spec_iou (nth i boxes box0) (nth j boxes box0))
                  (nms_threshold self) = false
    /\ (nth j box_confidences 0 <= nth i box_confidences 0)%Q.
Proof.
  intros Hj Hout. unfold _nms_boxes in *; cbv zeta in *.
  destruct (nms_loop_cause
              (fun i j => (nth j box_confidences 0 <= nth i box_confidences 0)%Q)
              (length (rev (argsort box_confidences)))
              (rev (argsort box_confidences)) (Nat.le_refl _)
              (ordered_sorted box_confidences) j)
    as [Hin|[i [Hin [Hiou Hc]]]].
  - now apply ordered_In.
  - contradiction.
  - exists i. auto.
Qed.

(** X11.  When no two boxes of the group overlap beyond the threshold, nothing is
    suppressed: the keep list is the whole group by descending
    confidence. *)
Theorem nms_without_overlap_keeps_everything (box_confidences : list Q) :
  (forall i j, i < length box_confidences -> j < length box_confidences ->
               i <> j ->
               less_equal (spec_iou (nth i boxes box0) (nth j boxes box0))
                          (nms_threshold self) = true) ->
  _nms_boxes self boxes box_confidences = rev (argsort box_confidences)
  /\ length (_nms_boxes self boxes box_confidences) = length box_confidences.
Proof.
  intro H.
  assert (E : _nms_boxes self boxes box_confidences
              = rev (argsort box_confidences)).
  { unfold _nms_boxes; cbv zeta. apply nms_loop_keeps_all; [lia|].
    apply ForallOrdPairs_of_all; [apply ordered_NoDup|].
    intros i j Hi Hj Hne. apply H; [now apply ordered_In.. | exact Hne]. }
  split; [exact E|].
  rewrite E, length_rev, (Permutation_length (argsort_perm box_confidences)).
  apply length_seq.
Qed.

End Removal.

(** ** Two identical boxes *)

Lemma overlap_same (lo len : Q) :
  (0 <= len)%Q -> (overlap lo len lo len == len + 1)%Q.
Proof.
  intro H. unfold overlap. rewrite Q.min_id, Q.max_id.
  rewrite Q.max_r by lra. ring.
Qed.

Lemma less_equal_ratio (i u t : Q) :
  (0 < i)%Q -> (0 <= t <= 1)%Q -> (u < i)%Q ->
  less_equal (true_divide i u) t = true <-> (u < 0)%Q.
Proof.
  intros Hi [Ht0 Ht1] Hui. unfold true_divide.
  destruct (Qeq_bool u 0) eqn:E.
  - apply Qeq_bool_eq in E.
    assert (Hc : (i ?= 0)%Q = Gt) by (apply Qgt_alt; exact Hi).
    rewrite Hc. simpl. split; [discriminate | intro H; lra].
  - apply Qeq_bool_neq in E. simpl. rewrite Qle_bool_iff. split.
    + intro H. destruct (Qlt_le_dec u 0) as [Hu|Hu]; [exact Hu|].
      exfalso. assert (Hpos : (0 < u)%Q) by (apply Qle_lteq in Hu; destruct Hu as
          [Hu|Hu]; [exact Hu | exfalso; apply E; now symmetry]).
      assert (H1 : (1 < i / u)%Q) by (apply Qlt_shift_div_l; [exact Hpos | lra]).
      lra.
    + intro Hu.
      assert (Eq : (i / u == (- i) / (- u))%Q) by (field; exact E).
      rewrite Eq. apply Qle_shift_div_r; [lra|].
      assert (0 <= t * - u)%Q by (apply Qmult_le_0_compat; lra). lra.
Qed.

(** A box against an identical copy: with the inclusive [+ 1] the
    intersection [(w + 1) * (h + 1)] exceeds the area, so the copy passes the
    IoU test exactly when [2 * w * h < (w + 1) * (h + 1)], where the union
    comes out negative. *)
Lemma iou_identical (b : Box) (t : Q) :
  (0 <= bw b)%Q -> (0 <= bh b)%Q -> (0 <= t <= 1)%Q ->
  less_equal (spec_iou b b) t = true <->
  (2 * bw b * bh b < (bw b + 1) * (bh b + 1))%Q.
Proof.
  intros Hw Hh Ht. unfold spec_iou; cbv zeta.
  rewrite (less_equal_true_divide_compat _ ((bw b + 1) * (bh b + 1))
             _ (bw b * bh b + bw b * bh b - (bw b + 1) * (bh b + 1)) t)
    by (rewrite !overlap_same by assumption; reflexivity).
  rewrite less_equal_ratio; [|nra | exact Ht | nra].
  split; intro H; lra.
Qed.


(** ** Detections are candidates *)

Lemma combine_app_eq {A B : Type} (l1 l2 : list A) (m1 m2 : list B) :
  length l1 = length m1 ->
  combine (l1 ++ l2) (m1 ++ m2) = combine l1 m1 ++ combine l2 m2.
Proof.
  revert m1; induction l1 as [|x l1 IH]; intros [|y m1] H; simpl in *;
    try discriminate; [reflexivity|].
  f_equal. apply IH. lia.
Qed.

Lemma combine3_concat {X A B C : Type} (f1 : X -> list A) (f2 : X -> list B)
      (f3 : X -> list C) (l : list X) :
  Forall (fun x => length (f1 x) = length (f2 x) /\
                   length (f2 x) = length (f3 x)) l ->
  combine (combine (concat (map f1 l)) (concat (map f2 l))) (concat (map f3 l))
  = concat (map (fun x => combine (combine (f1 x) (f2 x)) (f3 x)) l).
Proof.
  induction 1 as [|x l [H1 H2] _ IH]; simpl; [reflexivity|].
  rewrite combine_app_eq by exact H1.
  rewrite combine_app_eq by (rewrite length_combine; lia).
  now rewrite IH.
Qed.

Lemma combine3_take {A B C : Type} (da : A) (db : B) (dc : C)
      (a : list A) (b : list B) (c : list C) (idx : list nat) :
  combine (combine (take da a idx) (take db b idx)) (take dc c idx)
  = map (fun i => (nth i a da, nth i b db, nth i c dc)) idx.
Proof. induction idx as [|i idx IH]; simpl; [reflexivity | now rewrite <- IH]. Qed.

Lemma combine3_nth_In {A B C : Type} (da : A) (db : B) (dc : C)
      (a : list A) (b : list B) (c : list C) (p : nat) :
  length a = length b -> length b = length c -> p < length a ->
  In (nth p a da, nth p b db, nth p c dc) (combine (combine a b) c).
Proof.
  intros H1 H2 Hp.
  rewrite <- (combine_nth a b p da db H1).
  rewrite <- (combine_nth (combine a b) c p (da, db) dc)
    by (rewrite length_combine; lia).
  apply nth_In. rewrite !length_combine. lia.
Qed.

Lemma nms_class_members (self : PostprocessYOLO) (boxes : list Box)
      (categories : list nat) (confidences : list Q) (c : nat)
      (d : Box * nat * Q) :
  length boxes = length categories ->
  length categories = length confidences ->
  let r := nms_class self boxes categories confidences c in
  In d (combine (combine (fst (fst r)) (snd (fst r))) (snd r)) ->
  In d (combine (combine boxes categories) confidences).
Proof.
  intros H1 H2 r. subst r. unfold nms_class; cbv zeta; cbn [fst snd].
  set (idxs := where_ (map (Nat.eqb c) categories)).
  rewrite combine3_take. intro Hd. apply in_map_iff in Hd.
  destruct Hd as [i [<- Hi]].
  pose proof (_nms_boxes_lt self (take box0 boxes idxs)
                            (take 0%Q confidences idxs)) as Hlt.
  rewrite Forall_forall in Hlt. specialize (Hlt i Hi).
  rewrite take_length in Hlt.
  rewrite !take_nth by exact Hlt.
  assert (Hp : In (nth i idxs 0) idxs) by (apply nth_In; exact Hlt).
  apply where_lt in Hp. rewrite length_map in Hp.
  apply combine3_nth_In; lia.
Qed.

Lemma scale_boxes_length (boxes : list Box) (dims : list Z) :
  length (scale_boxes boxes dims) = length boxes.
Proof. apply length_map. Qed.

Lemma process_candidates
        (np_exp : Q -> Q) (set_iter : list nat -> list nat)
        (self : PostprocessYOLO) (outputs : list Tensor)
        (resolution_raw : Z * Z) (boxes : list Box) (classes : list nat)
        (scores : list Q) :
  process np_exp set_iter self outputs resolution_raw
  = Ok (Some boxes, Some classes, Some scores) ->
  exists outputs_reshaped cand_boxes cand_classes cand_scores,
    for_each _reshape_output outputs = Ok outputs_reshaped
    /\ candidates np_exp self outputs_reshaped
       = Ok (cand_boxes, cand_classes, cand_scores)
    /\ forall d,
        In d (combine (combine boxes classes) scores) ->
        In d (combine (combine (scale_boxes cand_boxes (image_dims resolution_raw))
                               cand_classes) cand_scores).
Proof.
  intro H. apply process_Ok in H.
  destruct H as [rs [[[cb cc] cs] [Hrs [Hc Hr]]]].
  exists rs, cb, cc, cs. split; [exact Hrs|]. split; [exact Hc|].
  destruct (candidates_lengths _ _ _ _ _ _ Hc) as [L1 L2].
  destruct (set_iter cc) as [|c l] eqn:E.
  - rewrite suppress_and_assemble_empty in Hr by exact E. discriminate.
  - rewrite suppress_and_assemble_cons in Hr by congruence.
    cbv zeta in Hr. rewrite !map_map in Hr. injection Hr as <- <- <-.
    intros d Hd. rewrite combine3_concat in Hd
      by (apply Forall_forall; intros x _; apply nms_class_lengths).
    apply in_concat in Hd. destruct Hd as [blk [Hblk Hd]].
    apply in_map_iff in Hblk. destruct Hblk as [x [<- _]].
    apply nms_class_members in Hd;
      [exact Hd | now rewrite scale_boxes_length | exact L2].
Qed.

(** X13.  Suppression only selects: every detection that [process] returns, as a
    triple of box, class and confidence taken at one position of the three
    outputs, is a candidate that passed the filter, with its box rescaled to
    the image; no triple is invented or paired anew. *)
Theorem process_returns_candidates
        (np_exp : Q -> Q) (set_iter : list nat -> list nat)
        (self : PostprocessYOLO) (outputs : list Tensor)
        (resolution_raw : Z * Z) (boxes : list Box) (classes : list nat)
        (scores : list Q) :
  process np_exp set_iter self outputs resolution_raw
  = Ok (Some boxes, Some classes, Some scores) ->
  exists outputs_reshaped cand_boxes cand_classes cand_scores,
    for_each _reshape_output outputs = Ok outputs_reshaped
    /\ candidates np_exp self outputs_reshaped
       = Ok (cand_boxes, cand_classes, cand_scores)
    /\ forall d,
        In d (combine (combine boxes classes) scores) ->
        In d (combine (combine (scale_boxes cand_boxes (image_dims resolution_raw))
                               cand_classes) cand_scores).
Proof. apply process_candidates. Qed.

(** ** Ranges of what [process] returns *)

Lemma _filter_boxes_ranges (self : PostprocessYOLO) (boxes : list Box)
      (box_confidences : list Q) (box_class_probs : list (list Q)) (n : nat) :
  length box_class_probs = length box_confidences ->
  0 < n ->
  Forall (fun v => length v = n) box_class_probs ->
  let r := _filter_boxes self boxes box_confidences box_class_probs in
  Forall (fun k => k < n) (snd (fst r))
  /\ Forall (fun s => (object_threshold self <= s)%Q) (snd r)
  /\ (Forall (fun c => (0 <= c <= 1)%Q) box_confidences ->
      Forall (Forall (fun p => (0 <= p <= 1)%Q)) box_class_probs ->
      Forall (fun s => (s <= 1)%Q) (snd r)).
Proof.
  intros Hlen Hn Hrows r. subst r.
  rewrite (_filter_boxes_unfold self boxes _ _ Hlen). cbv zeta. cbn [fst snd].
  set (cell := cell_scores box_confidences box_class_probs).
  set (pos := where_ _).
  assert (Hpos : forall p, In p pos ->
                           p < length box_confidences /\
                           Qle_bool (object_threshold self) (amax (cell p)) = true).
  { intro p. apply (where_map_seq_In
                      (fun p => Qle_bool (object_threshold self) (amax (cell p)))). }
  assert (Hcell : forall p, p < length box_confidences -> length (cell p) = n).
  { intros p Hp. unfold cell, cell_scores. rewrite length_map.
    rewrite Forall_forall in Hrows. apply Hrows, nth_In. lia. }
  assert (Hne : forall p, p < length box_confidences -> cell p <> []).
  { intros p Hp E. apply (f_equal (@length Q)) in E.
    rewrite Hcell in E by exact Hp. simpl in E. lia. }
  split; [|split].
  - apply Forall_forall; intros k Hk. apply in_map_iff in Hk.
    destruct Hk as [p [<- Hp]]. apply Hpos in Hp. destruct Hp as [Hp _].
    destruct (argmax_is_argmax (cell p) (Hne p Hp)) as [_ [Hlt _]].
    now rewrite Hcell in Hlt.
  - apply Forall_forall; intros s Hs. apply in_map_iff in Hs.
    destruct Hs as [p [<- Hp]]. apply Hpos in Hp. now apply Qle_bool_iff.
  - intros Hc Hp. apply Forall_forall; intros s Hs. apply in_map_iff in Hs.
    destruct Hs as [p [<- Hin]]. apply Hpos in Hin. destruct Hin as [Hlt _].
    destruct (amax_is_max (cell p) (Hne p Hlt)) as [Hm _].
    unfold cell, cell_scores in Hm. apply in_map_iff in Hm.
    destruct Hm as [q [Eq Hq]]. unfold cell, cell_scores. rewrite <- Eq.
    rewrite Forall_forall in Hc, Hp.
    assert (Hcp : (0 <= nth p box_confidences 0 <= 1)%Q)
      by (apply Hc, nth_In; exact Hlt).
    assert (Hqp : (0 <= q <= 1)%Q).
    { assert (Hrow : In (nth p box_class_probs []) box_class_probs)
        by (apply nth_In; lia).
      specialize (Hp _ Hrow). rewrite Forall_forall in Hp. now apply Hp. }
    nra.
Qed.

Lemma Forall_concat {A : Type} (P : A -> Prop) (ls : list (list A)) :
  Forall (Forall P) ls -> Forall P (concat ls).
Proof.
  induction 1 as [|l ls Hl _ IH]; simpl; [constructor|].
  apply Forall_app; auto.
Qed.

Lemma combine3_In_mid {A B C : Type} (a : list A) (b : list B) (c : list C) (y : B) :
  length a = length b -> length b = length c -> In y b ->
  exists x z, In (x, y, z) (combine (combine a b) c).
Proof.
  intros H1 H2 Hy. apply In_nth_error in Hy. destruct Hy as [p Hp].
  assert (Hlt : p < length b) by (apply nth_error_Some; congruence).
  destruct (nth_error a p) as [x|] eqn:Ea;
    [|apply nth_error_None in Ea; lia].
  destruct (nth_error c p) as [z|] eqn:Ec;
    [|apply nth_error_None in Ec; lia].
  exists x, z. eapply nth_error_combine_In; [|exact Ec].
  apply nth_error_split in Ea, Hp.
  destruct Ea as [a1 [a2 [-> La]]], Hp as [b1 [b2 [-> Lb]]].
  rewrite combine_app_eq by lia. rewrite nth_error_app2 by (rewrite length_combine; lia).
  rewrite length_combine, La, Lb, Nat.min_id, Nat.sub_diag. reflexivity.
Qed.

Lemma combine3_In_last {A B C : Type} (a : list A) (b : list B) (c : list C) (z : C) :
  length a = length b -> length b = length c -> In z c ->
  exists x y, In (x, y, z) (combine (combine a b) c).
Proof.
  intros H1 H2 Hz. apply In_nth_error in Hz. destruct Hz as [p Hp].
  assert (Hlt : p < length c) by (apply nth_error_Some; congruence).
  destruct (nth_error (combine a b) p) as [[x y]|] eqn:Eab.
  - exists x, y. eapply nth_error_combine_In; eassumption.
  - apply nth_error_None in Eab. rewrite length_combine in Eab. lia.
Qed.

Section OutputRanges.
Variable np_exp : Q -> Q.
Variable set_iter : list nat -> list nat.
Variable self : PostprocessYOLO.

Lemma decode_and_filter_ranges (t : Tensor) (o : Reshaped)
      (mask : nat * nat * nat) (r : list Box * list nat * list Q) :
  _reshape_output t = Ok o ->
  decode_and_filter np_exp self (o, mask) = Ok r ->
  Forall (fun k => k < 80) (snd (fst r))
  /\ Forall (fun s => (object_threshold self <= s)%Q) (snd r)
  /\ ((forall v, (0 <= np_exp v)%Q) -> Forall (fun s => (s <= 1)%Q) (snd r)).
Proof.
  intros Ho Hr. destruct mask as [[m0 m1] m2].
  destruct (_reshape_output_cells t o Ho) as [Eh [Ew [Hlen Hrows]]].
  unfold decode_and_filter in Hr.
  destruct (_process_feats np_exp self o (m0, m1, m2)) as [[[b conf] probs]|e]
    eqn:E; simpl in Hr; [|discriminate].
  injection Hr as <-.
  assert (Hcells : length (cells o) = grid_h o * grid_w o * 3)
    by (rewrite Eh, Ew; exact Hlen).
  destruct (_process_feats_cells np_exp self o m0 m1 m2 _ _ _
              E Hcells) as [_ [Hconf [Hprobs _]]].
  assert (L : length probs = length conf)
    by (rewrite Hconf, Hprobs, !length_map; reflexivity).
  assert (R : Forall (fun v => length v = 80) probs).
  { rewrite Hprobs. apply Forall_forall; intros v Hv.
    apply in_map_iff in Hv. destruct Hv as [c [<- Hc]].
    rewrite Forall_forall in Hrows. specialize (Hrows c Hc).
    rewrite length_map, length_skipn, Hrows. reflexivity. }
  destruct (_filter_boxes_ranges self b conf probs 80 L ltac:(lia) R)
    as [H1 [H2 H3]].
  split; [exact H1|]. split; [exact H2|].
  intro Hexp.
  destruct (_process_feats_in_range np_exp self o m0 m1 m2 _ _ _ Hexp E Hcells)
    as [Hc [Hp _]].
  now apply H3.
Qed.

Lemma candidates_ranges (outputs : list Tensor) (outputs_reshaped : list Reshaped)
      (boxes : list Box) (categories : list nat) (confidences : list Q) :
  for_each _reshape_output outputs = Ok outputs_reshaped ->
  candidates np_exp self outputs_reshaped = Ok (boxes, categories, confidences) ->
  Forall (fun k => k < 80) categories
  /\ Forall (fun s => (object_threshold self <= s)%Q) confidences
  /\ ((forall v, (0 <= np_exp v)%Q) ->
      Forall (fun s => (s <= 1)%Q) confidences).
Proof.
  intros Hrs Hc. rewrite candidates_per_scale in Hc.
  destruct (for_each (decode_and_filter np_exp self) _) as [per_scale|e] eqn:E;
    simpl in Hc; [|discriminate].
  apply for_each_Ok in E. apply for_each_Ok in Hrs.
  assert (Hall : Forall (fun r : list Box * list nat * list Q =>
            Forall (fun k => k < 80) (snd (fst r))
            /\ Forall (fun s => (object_threshold self <= s)%Q) (snd r)
            /\ ((forall v, (0 <= np_exp v)%Q) ->
                Forall (fun s => (s <= 1)%Q) (snd r))) per_scale).
  { apply Forall_forall; intros r Hr.
    destruct (Forall2_In_r _ _ _ _ E Hr) as [[o m] [Hin Hom]].
    apply in_combine_l in Hin.
    destruct (Forall2_In_r _ _ _ _ Hrs Hin) as [t [_ Ht]].
    eapply decode_and_filter_ranges; eassumption. }
  destruct per_scale as [|p ps]; simpl in Hc; [discriminate|].
  injection Hc as _ <- <-.
  change (Forall (fun k => k < 80)
                 (concat (map (fun r => snd (fst r)) (p :: ps)))
          /\ Forall (fun s => (object_threshold self <= s)%Q)
                    (concat (map (fun r => snd r) (p :: ps)))
          /\ ((forall v, (0 <= np_exp v)%Q) ->
              Forall (fun s => (s <= 1)%Q)
                     (concat (map (fun r => snd r) (p :: ps))))).
  rewrite Forall_forall in Hall.
  split; [|split; [|intro Hexp]]; apply Forall_concat, Forall_forall;
    intros l Hl; apply in_map_iff in Hl; destruct Hl as [r [<- Hr]];
    apply (Hall r Hr). exact Hexp.
Qed.

Lemma process_ranges
        (outputs : list Tensor) (resolution_raw : Z * Z)
        (boxes : list Box) (classes : list nat) (scores : list Q) :
  process np_exp set_iter self outputs resolution_raw
  = Ok (Some boxes, Some classes, Some scores) ->
  Forall (fun k => k < 80) classes
  /\ Forall (fun s => (object_threshold self <= s)%Q) scores
  /\ ((forall v, (0 <= np_exp v)%Q) -> Forall (fun s => (s <= 1)%Q) scores).
Proof.
  intro H.
  destruct (process_candidates _ _ _ _ _ _ _ _ H)
    as [rs [cb [cc [cs [Hrs [Hc Hsub]]]]]].
  destruct (candidates_ranges _ _ _ _ _ Hrs Hc) as [R1 [R2 R3]].
  apply process_Ok in H. destruct H as [rs' [cands [_ [_ Hr]]]].
  destruct (suppress_and_assemble_aligned set_iter self cands resolution_raw)
    as [r' [Hr' Ha]].
  rewrite Hr in Hr'. injection Hr' as <-. simpl in Ha. destruct Ha as [L1 L2].
  rewrite Forall_forall in R1, R2.
  split; [|split; [|intro Hexp; specialize (R3 Hexp);
                    rewrite Forall_forall in R3]];
    apply Forall_forall.
  - intros k Hk. destruct (combine3_In_mid boxes classes scores k L1 L2 Hk)
      as [x [z Hd]].
    apply Hsub in Hd. apply in_combine_l, in_combine_r in Hd. now apply R1.
  - intros s Hs. destruct (combine3_In_last boxes classes scores s L1 L2 Hs)
      as [x [y Hd]].
    apply Hsub in Hd. apply in_combine_r in Hd. now apply R2.
  - intros s Hs. destruct (combine3_In_last boxes classes scores s L1 L2 Hs)
      as [x [y Hd]].
    apply Hsub in Hd. apply in_combine_r in Hd. now apply R3.
Qed.

(** X14.  What [process] returns stays in range: every class index is below 80 and
    every confidence is at least [object_threshold]; for an exponential that
    is never negative no confidence exceeds 1. *)
Theorem process_output_ranges
        (outputs : list Tensor) (resolution_raw : Z * Z)
        (boxes : list Box) (classes : list nat) (scores : list Q) :
  process np_exp set_iter self outputs resolution_raw
  = Ok (Some boxes, Some classes, Some scores) ->
  Forall (fun k => k < 80) classes
  /\ Forall (fun s => (object_threshold self <= s)%Q) scores
  /\ ((forall v, (0 <= np_exp v)%Q) -> Forall (fun s => (s <= 1)%Q) scores).
Proof. apply process_ranges. Qed.

End OutputRanges.

(** ** The engine outputs that [__call__] accepts *)

Lemma reshape_flat_Ok (output : list Q) (n c h w : nat) :
  length output = n * c * h * w ->
  reshape_flat output (n, c, h, w) = Ok (mkTensor n c h w output).
Proof.
  intro H. unfold reshape_flat, reshape_check. cbn [fold_right].
  replace (length output =? n * (c * (h * (w * 1)))) with true
    by (symmetry; apply Nat.eqb_eq; lia).
  reflexivity.
Qed.

Lemma reshape_flat_Raise (output : list Q) (n c h w : nat) :
  length output <> n * c * h * w ->
  reshape_flat output (n, c, h, w) = Raise ValueError.
Proof.
  intro H. unfold reshape_flat, reshape_check. cbn [fold_right].
  replace (length output =? n * (c * (h * (w * 1)))) with false
    by (symmetry; apply Nat.eqb_neq; lia).
  reflexivity.
Qed.

Section Call.
Variable np_exp : Q -> Q.
Variable set_iter : list nat -> list nat.
Variable do_inference : Image -> list (list Q).
Variables obj_threshold nms_threshold : Q.
Variables h w : positive.

Lemma call_sizes_Raise (image : Image) (o1 o2 o3 : list Q) :
  do_inference image = [o1; o2; o3] ->
  ~ (length o1 = 1 * 255 * 19 * 19 /\ length o2 = 1 * 255 * 38 * 38 /\
     length o3 = 1 * 255 * 76 * 76) ->
  DarknetTRT__call__ np_exp set_iter do_inference
                     (DarknetTRT__init__ obj_threshold nms_threshold h w) image
  = Raise ValueError.
Proof.
  intros Hinf Hn. unfold DarknetTRT__call__. rewrite Hinf.
  cbn [DarknetTRT__init__ output_shapes combine for_each].
  destruct (Nat.eq_dec (length o1) (1 * 255 * 19 * 19)) as [E1|E1];
    [|rewrite (reshape_flat_Raise o1 _ _ _ _ E1); reflexivity].
  rewrite (reshape_flat_Ok o1 _ _ _ _ E1). cbn [bind].
  destruct (Nat.eq_dec (length o2) (1 * 255 * 38 * 38)) as [E2|E2];
    [|rewrite (reshape_flat_Raise o2 _ _ _ _ E2); reflexivity].
  rewrite (reshape_flat_Ok o2 _ _ _ _ E2). cbn [bind].
  destruct (Nat.eq_dec (length o3) (1 * 255 * 76 * 76)) as [E3|E3];
    [|rewrite (reshape_flat_Raise o3 _ _ _ _ E3); reflexivity].
  exfalso. apply Hn. split; [exact E1 | split; [exact E2 | exact E3]].
Qed.

Lemma call_sizes_Ok (image : Image) (o1 o2 o3 : list Q) :
  do_inference image = [o1; o2; o3] ->
  length o1 = 1 * 255 * 19 * 19 -> length o2 = 1 * 255 * 38 * 38 ->
  length o3 = 1 * 255 * 76 * 76 ->
  exists r,
    DarknetTRT__call__ np_exp set_iter do_inference
                       (DarknetTRT__init__ obj_threshold nms_threshold h w) image
    = Ok r.
Proof.
  intros Hinf E1 E2 E3. unfold DarknetTRT__call__. rewrite Hinf.
  cbn [DarknetTRT__init__ output_shapes combine for_each].
  rewrite (reshape_flat_Ok o1 _ _ _ _ E1), (reshape_flat_Ok o2 _ _ _ _ E2),
    (reshape_flat_Ok o3 _ _ _ _ E3).
  cbn [bind postprocessor].
  apply process_accepts; try discriminate.
  - repeat constructor; cbn [anchors length]; lia.
  - repeat constructor; cbn [t_n t_c t_h t_w]; lia.
Qed.


End Call.

(** ** The order of the classes *)

Section ClassOrder.
Variable self : PostprocessYOLO.

Lemma suppress_and_assemble_triples (set_iter : list nat -> list nat)
      (boxes : list Box) (categories : list nat) (confidences : list Q)
      (resolution_raw : Z * Z) :
  exists r,
    suppress_and_assemble set_iter self (boxes, categories, confidences)
                          resolution_raw = Ok r
    /\ triples r
       = flat_map (fun c =>
                     let k := nms_class self
                                (scale_boxes boxes (image_dims resolution_raw))
                                categories confidences c in
                     combine (combine (fst (fst k)) (snd (fst k))) (snd k))
                  (set_iter categories).
Proof.
  destruct (set_iter categories) as [|c l] eqn:E.
  - eexists. split; [now apply suppress_and_assemble_empty | reflexivity].
  - eexists. split; [apply suppress_and_assemble_cons; congruence|].
    cbv zeta. rewrite E. cbn [triples]. rewrite !map_map.
    rewrite combine3_concat
      by (apply Forall_forall; intros x _; apply nms_class_lengths).
    now rewrite flat_map_concat_map.
Qed.


End ClassOrder.

(** ** Drawing *)

Lemma round_half_up_near (v : Q) :
  (v - (1 # 2) < inject_Z (round_half_up v) /\
   inject_Z (round_half_up v) <= v + (1 # 2))%Q.
Proof.
  unfold round_half_up.
  pose proof (Qfloor_le (v + (1 # 2))) as H1.
  pose proof (Qlt_floor (v + (1 # 2))) as H2.
  rewrite inject_Z_plus in H2. change (inject_Z 1) with 1%Q in H2.
  split; lra.
Qed.

Lemma round_half_up_nonneg (v : Q) : (0 <= v)%Q -> (0 <= round_half_up v)%Z.
Proof.
  intro H. unfold round_half_up.
  change 0%Z with (Qfloor 0). apply Qfloor_resp_le. lra.
Qed.

Lemma round_half_up_le (v : Q) (n : nat) :
  (v <= inject_Z (Z.of_nat n))%Q -> (round_half_up v <= Z.of_nat n)%Z.
Proof.
  intro H. destruct (round_half_up_near v) as [H1 _].
  assert (Hlt : (inject_Z (round_half_up v) < inject_Z (Z.of_nat n + 1))%Q).
  { rewrite inject_Z_plus. change (inject_Z 1) with 1%Q.
    pose proof (Qfloor_le (v + (1 # 2))) as Hf. unfold round_half_up. lra. }
  rewrite <- Zlt_Qlt in Hlt. lia.
Qed.

Section Draw.
Variable image_raw : Image.
Variable all_categories : list String.string.

Lemma draw_box_Ok (box : Box) (score : Q) (category : nat) :
  category < length all_categories ->
  exists l t r b name,
    draw_box image_raw all_categories box score category
    = Ok [rectangle l t r b; text l (t - 12) name score]
    /\ nth_error all_categories category = Some name
    /\ l = Z.max 0 (round_half_up (bx box))
    /\ t = Z.max 0 (round_half_up (by_ box))
    /\ r = Z.min (Z.of_nat (snd (fst (shape image_raw))))
                 (round_half_up (bx box + bw box))
    /\ b = Z.min (Z.of_nat (fst (fst (shape image_raw))))
                 (round_half_up (by_ box + bh box)).
Proof.
  intro H. unfold draw_box. destruct (shape image_raw) as [[s0 s1] s2].
  cbv zeta. destruct (nth_error all_categories category) as [name|] eqn:E.
  - do 5 eexists. repeat split; reflexivity.
  - apply nth_error_None in E. lia.
Qed.

Lemma draw_box_Raise (box : Box) (score : Q) (category : nat) :
  length all_categories <= category ->
  draw_box image_raw all_categories box score category = Raise IndexError.
Proof.
  intro H. unfold draw_box. destruct (shape image_raw) as [[s0 s1] s2].
  cbv zeta. apply nth_error_None in H. rewrite H. reflexivity.
Qed.

Lemma draw_box_Raise_inv (box : Box) (score : Q) (category : nat) (e : exn) :
  draw_box image_raw all_categories box score category = Raise e ->
  e = IndexError /\ length all_categories <= category.
Proof.
  intro H. destruct (lt_dec category (length all_categories)) as [Hlt|Hge].
  - destruct (draw_box_Ok box score category Hlt)
      as [l [t [r [b [name [E _]]]]]].
    rewrite E in H. discriminate.
  - rewrite draw_box_Raise in H by lia. injection H as <-. split; [reflexivity | lia].
Qed.

(** X17.  Every rectangle that [draw_bboxes] draws is clamped to the image: its
    left and top are not negative, its right is at most the image width and
    its bottom at most the image height, whatever the box; the label is put
    12 pixels above the top left corner. *)
Theorem draw_bboxes_clamps_rectangles
        (bboxes : list Box) (confidences : list Q) (categories : list nat)
        (calls : list draw_call) :
  draw_bboxes image_raw (Some bboxes) confidences categories all_categories
  = Ok calls ->
  Forall (fun c =>
            match c with
            | rectangle l t r b =>
                (0 <= l /\ 0 <= t /\
                 r <= Z.of_nat (snd (fst (shape image_raw))) /\
                 b <= Z.of_nat (fst (fst (shape image_raw))))%Z
            | text x y _ _ => (0 <= x /\ -12 <= y)%Z
            end) calls.
Proof.
  unfold draw_bboxes.
  destruct (for_each _ _) as [per_box|e] eqn:E; simpl; [|discriminate].
  intro H; injection H as <-. apply for_each_Ok in E.
  apply Forall_concat.
  induction E as [|[[box score] category] cs l l' Hcs _ IH]; constructor;
    [|exact IH].
  destruct (lt_dec category (length all_categories)) as [Hlt|Hge];
    [|rewrite draw_box_Raise in Hcs by lia; discriminate].
  destruct (draw_box_Ok box score category Hlt)
    as [l0 [t [r [b [name [E0 [_ [-> [-> [-> ->]]]]]]]]]].
  rewrite E0 in Hcs. injection Hcs as <-.
  repeat constructor; lia.
Qed.


End Draw.

Section DrawOutcome.
Variable image_raw : Image.
Variable all_categories : list String.string.

Lemma draw_each_Ok (dets : list (Box * Q * nat)) :
  Forall (fun d => snd d < length all_categories) dets ->
  exists per_box,
    for_each (fun bsc : Box * Q * nat =>
                let '(box, score, category) := bsc in
                draw_box image_raw all_categories box score category) dets
    = Ok per_box
    /\ length (concat per_box) = 2 * length dets.
Proof.
  induction 1 as [|[[box score] category] l Hd _ [per_box [E L]]]; simpl.
  - exists []. split; reflexivity.
  - simpl in Hd.
    destruct (draw_box_Ok image_raw all_categories box score category Hd)
      as [l0 [t [r [b [name [E0 _]]]]]].
    rewrite E0, E. simpl. eexists. split; [reflexivity|]. simpl. lia.
Qed.

Lemma draw_each_Raise (dets : list (Box * Q * nat)) :
  ~ Forall (fun d => snd d < length all_categories) dets ->
  for_each (fun bsc : Box * Q * nat =>
              let '(box, score, category) := bsc in
              draw_box image_raw all_categories box score category) dets
  = Raise IndexError.
Proof.
  intro H. apply for_each_Raise.
  - apply neg_Forall_Exists_neg in H; [|intro; apply lt_dec].
    apply Exists_exists in H. destruct H as [[[box score] category] [Hin Hc]].
    exists (box, score, category). split; [exact Hin|].
    apply draw_box_Raise. simpl in Hc. lia.
  - intros [[box score] category] e' _ He.
    now apply draw_box_Raise_inv in He.
Qed.

Lemma combine_categories (bboxes : list Box) (confidences : list Q)
      (categories : list nat) (n : nat) :
  length bboxes = length confidences ->
  length confidences = length categories ->
  Forall (fun d : Box * Q * nat => snd d < n)
         (combine (combine bboxes confidences) categories)
  <-> Forall (fun c => c < n) categories.
Proof.
  intros H1 H2. rewrite !Forall_forall. split.
  - intros H c Hc.
    destruct (combine3_In_last bboxes confidences categories c H1 H2 Hc)
      as [x [y Hd]].
    apply (H _ Hd).
  - intros H [[b s] c] Hd. apply in_combine_r in Hd. now apply H.
Qed.

Lemma draw_bboxes_Ok (bboxes : list Box) (confidences : list Q)
      (categories : list nat) :
  length bboxes = length confidences ->
  length confidences = length categories ->
  Forall (fun c => c < length all_categories) categories ->
  exists calls,
    draw_bboxes image_raw (Some bboxes) confidences categories all_categories
    = Ok calls
    /\ length calls = 2 * length bboxes.
Proof.
  intros H1 H2 Hc. unfold draw_bboxes.
  destruct (draw_each_Ok (combine (combine bboxes confidences) categories))
    as [per_box [E L]]; [now apply combine_categories|].
  rewrite E. simpl. eexists. split; [reflexivity|].
  rewrite L, !length_combine. lia.
Qed.


End DrawOutcome.


(** ** Further instances *)

Lemma exp_stub_nonneg (v : Q) : (0 <= exp_stub v)%Q.
Proof.
  unfold exp_stub. destruct (Qle_bool 0 v) eqn:E.
  - apply Qle_bool_iff in E. lra.
  - assert (H : ~ (0 <= v)%Q) by (rewrite <- Qle_bool_iff, E; discriminate).
    unfold Qdiv. rewrite Qmult_1_l. apply Qinv_le_0_compat. lra.
Qed.

Lemma reverse_order_visits_members : visits_members reverse_order.
Proof.
  intros l c. unfold reverse_order. rewrite <- in_rev.
  apply last_occurrences_visits_members.
Qed.

Lemma last_occurrences_NoDup (l : list nat) : NoDup (last_occurrences l).
Proof. apply NoDup_nodup. Qed.

Lemma reverse_order_NoDup (l : list nat) : NoDup (reverse_order l).
Proof. apply NoDup_rev, last_occurrences_NoDup. Qed.

Lemma reshape_output_entry_witness :
  exists r,
    _reshape_output (tensor_1x1 (hot 3) quiet quiet) = Ok r
    /\ nth 4 (nth ((0 * 1 + 0) * 3 + 0) (cells r) []) 0%Q
       = nth (((0 * 85 + 4) * 1 + 0) * 1 + 0)
             (t_data (tensor_1x1 (hot 3) quiet quiet)) 0%Q.
Proof.
  eexists. split; [vm_compute; reflexivity|].
  apply (reshape_output_entry (tensor_1x1 (hot 3) quiet quiet) _ 0 0 0 4);
    [vm_compute; reflexivity | reflexivity | | | |]; simpl; lia.
Defined.

Lemma process_feats_decodes_each_cell_witness :
  exists boxes box_confidence box_class_probs,
    _process_feats exp_stub yolov3 hot_reshaped (6, 7, 8)
    = Ok (boxes, box_confidence, box_class_probs)
    /\ length (cells hot_reshaped) = grid_h hot_reshaped * grid_w hot_reshaped * 3
    /\ length boxes = length (cells hot_reshaped)
    /\ box_confidence
       = map (fun v => sigmoid exp_stub (nth 4 v 0%Q)) (cells hot_reshaped).
Proof.
  do 3 eexists. split; [vm_compute; reflexivity|]. split; [reflexivity|].
  assert (H := process_feats_decodes_each_cell
                 exp_stub yolov3 hot_reshaped 6 7 8 _ _ _
                 ltac:(vm_compute; reflexivity) eq_refl).
  split; [exact (proj1 H) | exact (proj1 (proj2 H))].
Defined.


Lemma process_without_scales_raises_witness :
  for_each _reshape_output [] = Ok []
  /\ process exp_stub last_occurrences yolov3 [] (640, 480)%Z
     = Raise ValueError.
Proof.
  split; [reflexivity|].
  exact (process_without_scales_raises
           exp_stub last_occurrences yolov3 (640, 480)%Z [] []
           eq_refl (or_introl eq_refl)).
Defined.

Lemma process_ignores_extra_tensors_witness :
  length (masks yolov3) <= length quiet_scales
  /\ for_each _reshape_output [oblong_tensor]
     = Ok [mkReshaped 1 2 (repeat quiet 6)]
  /\ process exp_stub last_occurrences yolov3 (quiet_scales ++ [oblong_tensor])
             (640, 480)%Z
     = process exp_stub last_occurrences yolov3 quiet_scales (640, 480)%Z.
Proof.
  assert (H1 : length (masks yolov3) <= length quiet_scales) by (simpl; lia).
  assert (H2 : for_each _reshape_output [oblong_tensor]
               = Ok [mkReshaped 1 2 (repeat quiet 6)])
    by (vm_compute; reflexivity).
  split; [exact H1|]. split; [exact H2|].
  exact (process_ignores_extra_tensors
           exp_stub last_occurrences yolov3 (640, 480)%Z
           quiet_scales [oblong_tensor] _ H1 H2).
Defined.

Lemma yolov3_masks_in_range : Forall (mask_in_range yolov3) (masks yolov3).
Proof. repeat constructor; simpl; lia. Qed.

Lemma process_accepts_well_formed_witness :
  quiet_scales <> []
  /\ masks yolov3 <> []
  /\ Forall (fun t => t_n t = 1 /\ t_c t = 3 * (5 + 80) /\
                      t_h t = t_w t /\ 0 < t_w t) quiet_scales
  /\ exists r, process exp_stub last_occurrences yolov3 quiet_scales
                       (640, 480)%Z = Ok r.
Proof.
  assert (H1 : quiet_scales <> []) by discriminate.
  assert (H2 : masks yolov3 <> []) by discriminate.
  assert (H3 : Forall (fun t => t_n t = 1 /\ t_c t = 3 * (5 + 80) /\
                                t_h t = t_w t /\ 0 < t_w t) quiet_scales)
    by (repeat constructor).
  split; [exact H1|]. split; [exact H2|]. split; [exact H3|].
  exact (process_accepts_well_formed
           exp_stub last_occurrences yolov3 (640, 480)%Z quiet_scales
           H1 H2 yolov3_masks_in_range H3).
Defined.

Lemma process_rejects_non_square_grid_witness :
  for_each _reshape_output [oblong_tensor] = Ok [mkReshaped 1 2 (repeat quiet 6)]
  /\ nth_error [oblong_tensor] 0 = Some oblong_tensor
  /\ 0 < length (masks yolov3)
  /\ ~ (0 < t_w oblong_tensor /\ t_h oblong_tensor = t_w oblong_tensor)
  /\ process exp_stub last_occurrences yolov3 [oblong_tensor] (640, 480)%Z
     = Raise ValueError.
Proof.
  assert (H1 : for_each _reshape_output [oblong_tensor]
               = Ok [mkReshaped 1 2 (repeat quiet 6)])
    by (vm_compute; reflexivity).
  assert (H2 : nth_error [oblong_tensor] 0 = Some oblong_tensor) by reflexivity.
  assert (H3 : 0 < length (masks yolov3)) by (simpl; lia).
  assert (H4 : ~ (0 < t_w oblong_tensor /\
                  t_h oblong_tensor = t_w oblong_tensor))
    by (simpl; lia).
  repeat (split; [assumption|]).
  exact (process_rejects_non_square_grid
           exp_stub last_occurrences yolov3 (640, 480)%Z [oblong_tensor] _ 0
           oblong_tensor yolov3_masks_in_range H1 H2 H3 H4).
Defined.

Lemma nms_dropped_index_has_a_kept_cause_witness :
  0 < length sample_confidences
  /\ ~ In 0 (_nms_boxes yolov3 sample_boxes sample_confidences)
  /\ exists i,
      In i (_nms_boxes yolov3 sample_boxes sample_confidences)
      /\ less_equal (spec_iou (nth i sample_boxes box0) (nth 0 sample_boxes box0))
                    (nms_threshold yolov3) = false
      /\ (nth 0 sample_confidences 0 <= nth i sample_confidences 0)%Q.
Proof.
  assert (H1 : 0 < length sample_confidences) by (simpl; lia).
  assert (H2 : ~ In 0 (_nms_boxes yolov3 sample_boxes sample_confidences))
    by (vm_compute; intros [H|[H|[]]]; discriminate H).
  split; [exact H1|]. split; [exact H2|].
  exact (nms_dropped_index_has_a_kept_cause
           yolov3 sample_boxes sample_confidences 0 H1 H2).
Defined.

Lemma nms_without_overlap_keeps_everything_witness :
  (forall i j, i < length apart_confidences -> j < length apart_confidences ->
               i <> j ->
               less_equal (spec_iou (nth i apart_boxes box0)
                                    (nth j apart_boxes box0))
                          (nms_threshold yolov3) = true)
  /\ _nms_boxes yolov3 apart_boxes apart_confidences
     = rev (argsort apart_confidences)
  /\ length (_nms_boxes yolov3 apart_boxes apart_confidences)
     = length apart_confidences.
Proof.
  assert (H : forall i j, i < length apart_confidences ->
                          j < length apart_confidences -> i <> j ->
                          less_equal (spec_iou (nth i apart_boxes box0)
                                               (nth j apart_boxes box0))
                                     (nms_threshold yolov3) = true).
  { intros [|[|i]] [|[|j]] Hi Hj Hne;
      try (simpl in Hi, Hj; lia); try (exfalso; apply Hne; reflexivity);
      vm_compute; reflexivity. }
  split; [exact H|].
  exact (nms_without_overlap_keeps_everything
           yolov3 apart_boxes apart_confidences H).
Defined.


Lemma process_returns_candidates_witness :
  exists boxes classes scores,
    process exp_stub last_occurrences yolov3 two_scales (640, 480)%Z
    = Ok (Some boxes, Some classes, Some scores)
    /\ exists outputs_reshaped cand_boxes cand_classes cand_scores,
        for_each _reshape_output two_scales = Ok outputs_reshaped
        /\ candidates exp_stub yolov3 outputs_reshaped
           = Ok (cand_boxes, cand_classes, cand_scores)
        /\ forall d,
            In d (combine (combine boxes classes) scores) ->
            In d (combine (combine (scale_boxes cand_boxes
                                                (image_dims (640, 480)%Z))
                                   cand_classes) cand_scores).
Proof.
  do 3 eexists. split; [vm_compute; reflexivity|].
  apply (process_returns_candidates
           exp_stub last_occurrences yolov3 two_scales (640, 480)%Z).
  vm_compute; reflexivity.
Defined.

Lemma process_output_ranges_witness :
  exists boxes classes scores,
    process exp_stub last_occurrences yolov3 two_scales (640, 480)%Z
    = Ok (Some boxes, Some classes, Some scores)
    /\ Forall (fun k => k < 80) classes
    /\ Forall (fun s => (object_threshold yolov3 <= s)%Q) scores
    /\ Forall (fun s => (s <= 1)%Q) scores.
Proof.
  do 3 eexists. split; [vm_compute; reflexivity|].
  assert (H := process_output_ranges
                 exp_stub last_occurrences yolov3 two_scales (640, 480)%Z
                 _ _ _ ltac:(vm_compute; reflexivity)).
  split; [exact (proj1 H)|]. split; [exact (proj1 (proj2 H))|].
  exact (proj2 (proj2 H) exp_stub_nonneg).
Defined.



Lemma draw_bboxes_clamps_rectangles_witness :
  exists calls,
    draw_bboxes small_image (Some sample_boxes) sample_confidences [0; 1; 2]
                labels = Ok calls
    /\ Forall (fun c =>
                 match c with
                 | rectangle l t r b =>
                     (0 <= l /\ 0 <= t /\
                      r <= Z.of_nat (snd (fst (shape small_image))) /\
                      b <= Z.of_nat (fst (fst (shape small_image))))%Z
                 | text x y _ _ => (0 <= x /\ -12 <= y)%Z
                 end) calls.
Proof.
  eexists. split; [vm_compute; reflexivity|].
  apply (draw_bboxes_clamps_rectangles
           small_image labels sample_boxes sample_confidences [0; 1; 2]).
  vm_compute; reflexivity.
Defined.




(** ** The padded image *)

Import Preparation.

Lemma splice {A : Type} (pre mid post new : list A) (a n : nat) :
  length pre = a -> length mid = n ->
  firstn a (pre ++ mid ++ post) ++ new ++ skipn (a + n) (pre ++ mid ++ post)
  = pre ++ new ++ post.
Proof.
  intros <- <-.
  assert (E1 : firstn (length pre) (pre ++ mid ++ post) = pre)
    by (rewrite firstn_app, firstn_all, Nat.sub_diag, firstn_O; apply app_nil_r).
  assert (E2 : skipn (length pre + length mid) (pre ++ mid ++ post) = post).
  { rewrite (app_assoc pre mid post), <- length_app, skipn_app, skipn_all,
      Nat.sub_diag. reflexivity. }
  now rewrite E1, E2.
Qed.

Lemma stretch_same {A : Type} (n : nat) (l : list A) :
  length l = n -> stretch n l = l.
Proof. intro H. unfold stretch. now rewrite H, Nat.eqb_refl. Qed.

Lemma rows_inner_length (count k : nat) (flat : list Q) :
  length flat = count * k ->
  Forall (fun v => length v = k) (rows count k flat).
Proof. apply rows_row_length. Qed.

Section Rows.
Variable image : Image.
Variables height width channels : nat.
Hypothesis Hshape : shape image = (height, width, channels).
Hypothesis Hwf : well_formed image.

Lemma image_rows_length : length (image_rows image) = height.
Proof.
  unfold image_rows. rewrite Hshape. now rewrite length_map, rows_length.
Qed.

Lemma image_rows_width :
  Forall (fun row => length row = width) (image_rows image).
Proof.
  unfold image_rows. rewrite Hshape. apply Forall_forall; intros row Hr.
  apply in_map_iff in Hr. destruct Hr as [flat [<- _]]. apply rows_length.
Qed.

Lemma image_rows_depth :
  Forall (Forall (fun px => length px = channels)) (image_rows image).
Proof.
  unfold image_rows. unfold well_formed in Hwf. rewrite Hshape in *.
  apply Forall_forall; intros row Hr.
  apply in_map_iff in Hr. destruct Hr as [flat [<- Hflat]].
  apply rows_row_length.
  assert (Hall : Forall (fun v => length v = width * channels)
                        (rows height (width * channels) (pixels image)))
    by (apply rows_row_length; lia).
  rewrite Forall_forall in Hall. now apply Hall.
Qed.

Lemma broadcast_same :
  broadcast height width channels (image_rows image) = image_rows image.
Proof.
  unfold broadcast.
  rewrite stretch_same by (rewrite length_map; apply image_rows_length).
  rewrite <- (map_id (image_rows image)) at 2.
  apply map_ext_in; intros row Hr.
  pose proof image_rows_width as Hw. pose proof image_rows_depth as Hd.
  rewrite Forall_forall in Hw, Hd.
  rewrite stretch_same by (rewrite length_map; now apply Hw).
  rewrite <- (map_id row) at 2. apply map_ext_in; intros px Hpx.
  apply stretch_same. specialize (Hd row Hr). rewrite Forall_forall in Hd.
  now apply Hd.
Qed.

End Rows.

Section Assign.
Variable image : Image.
Variables height width channels : nat.
Hypothesis Hshape : shape image = (height, width, channels).
Hypothesis Hwf : well_formed image.

Lemma assign_rows_framed (mid : list (list (list Q))) :
  height < width -> length mid = height ->
  let top := (width - height) / 2 in
  let zero_row := repeat (repeat 0%Q channels) width in
  assign_rows (mkBuffer width channels
                 (repeat zero_row top ++ mid
                  ++ repeat zero_row (width - height - top)))
              top (height + top) image
  = Some (letterbox image).
Proof.
  intros Hlt Hmid top zero_row.
  assert (Htop : top <= width - height)
    by (apply Nat.Div0.div_le_upper_bound; lia).
  unfold assign_rows, letterbox. rewrite Hshape. cbn [side depth content].
  assert (Hn : slice_length top (height + top) width = height)
    by (unfold slice_length; lia).
  rewrite Hn. unfold fits. rewrite !Nat.eqb_refl. cbn [orb andb].
  apply Nat.ltb_lt in Hlt. rewrite Hlt. fold top. fold zero_row.
  rewrite (broadcast_same image height width channels Hshape Hwf).
  rewrite splice by (rewrite ?repeat_length; auto).
  reflexivity.
Qed.

Lemma assign_columns_framed (mid : list (list (list Q))) :
  ~ height < width -> length mid = height ->
  Forall (fun m => length m = width) mid ->
  let left := (height - width) / 2 in
  let zero := repeat 0%Q channels in
  assign_columns (mkBuffer height channels
                    (map (fun m => repeat zero left ++ m
                                   ++ repeat zero (height - width - left)) mid))
                 left (width + left) image
  = Some (letterbox image).
Proof.
  intros Hge Hmid Hw left zero.
  assert (Hleft : left <= height - width)
    by (apply Nat.Div0.div_le_upper_bound; lia).
  unfold assign_columns, letterbox. rewrite Hshape. cbn [side depth content].
  assert (Hn : slice_length left (width + left) height = width)
    by (unfold slice_length; lia).
  rewrite Hn. unfold fits. rewrite !Nat.eqb_refl. cbn [orb andb].
  apply Nat.ltb_nlt in Hge. rewrite Hge. fold left. fold zero.
  rewrite (broadcast_same image height width channels Hshape Hwf).
  f_equal. f_equal.
  pose proof (image_rows_length image height width channels Hshape) as Hlen.
  rewrite <- Hlen in Hmid. clear Hlen.
  revert Hmid Hw. generalize (image_rows image) as new.
  induction mid as [|m mid IH]; intros [|r new] Hmid Hw; simpl in *;
    try discriminate; [reflexivity|].
  inversion Hw as [|? ? Hm Hrest]; subst.
  rewrite splice by (rewrite ?repeat_length; auto).
  f_equal. apply IH; [lia | exact Hrest].
Qed.

End Assign.

Section OneCall.
Variable image : Image.
Variables height width channels : nat.
Hypothesis Hshape : shape image = (height, width, channels).
Hypothesis Hwf : well_formed image.

Lemma half_le (n : nat) : n / 2 <= n.
Proof. apply Nat.Div0.div_le_upper_bound; lia. Qed.

Lemma assign_zeros :
  (if height <? width
   then assign_rows (zeros (Nat.max height width) channels)
                    ((width - height) / 2) (height + (width - height) / 2) image
   else assign_columns (zeros (Nat.max height width) channels)
                       ((height - width) / 2) (width + (height - width) / 2)
                       image)
  = Some (letterbox image).
Proof.
  unfold zeros. destruct (height <? width) eqn:E.
  - apply Nat.ltb_lt in E. rewrite Nat.max_r by lia.
    pose proof (half_le (width - height)) as Hh.
    replace (repeat (repeat (repeat 0%Q channels) width) width)
      with (repeat (repeat (repeat 0%Q channels) width) ((width - height) / 2)
            ++ repeat (repeat (repeat 0%Q channels) width) height
            ++ repeat (repeat (repeat 0%Q channels) width)
                      (width - height - (width - height) / 2))
      by (rewrite <- !repeat_app; f_equal; lia).
    apply (assign_rows_framed image height width channels Hshape Hwf);
      [exact E | apply repeat_length].
  - apply Nat.ltb_nlt in E. rewrite Nat.max_l by lia.
    pose proof (half_le (height - width)) as Hh.
    replace (repeat (repeat (repeat 0%Q channels) height) height)
      with (map (fun m => repeat (repeat 0%Q channels) ((height - width) / 2)
                          ++ m
                          ++ repeat (repeat 0%Q channels)
                                    (height - width - (height - width) / 2))
                (repeat (repeat (repeat 0%Q channels) width) height))
      by (rewrite map_repeat, <- !repeat_app; do 2 f_equal; lia).
    apply (assign_columns_framed image height width channels Hshape Hwf);
      [exact E | apply repeat_length|].
    apply Forall_forall; intros m Hm. apply repeat_spec in Hm. subst m.
    apply repeat_length.
Qed.

Lemma assign_letterbox (previous : Image) :
  shape previous = (height, width, channels) -> well_formed previous ->
  (if height <? width
   then assign_rows (letterbox previous)
                    ((width - height) / 2) (height + (width - height) / 2) image
   else assign_columns (letterbox previous)
                       ((height - width) / 2) (width + (height - width) / 2)
                       image)
  = Some (letterbox image).
Proof.
  intros Hs Hw. unfold letterbox at 1 2. rewrite Hs.
  destruct (height <? width) eqn:E.
  - apply Nat.ltb_lt in E.
    apply (assign_rows_framed image height width channels Hshape Hwf);
      [exact E | now apply (image_rows_length previous height width channels)].
  - apply Nat.ltb_nlt in E.
    apply (assign_columns_framed image height width channels Hshape Hwf);
      [exact E | now apply (image_rows_length previous height width channels)|].
    now apply (image_rows_width previous height width channels).
Qed.

Lemma prepare_fresh (self : State) :
  height <> h self \/ width <> w self ->
  image_preparation self image
  = (mkState height width (Some (letterbox image)), None).
Proof.
  intro Hne. unfold image_preparation. rewrite Hshape.
  assert (E : negb (height =? h self) || negb (width =? w self) = true).
  { destruct Hne as [H|H]; apply Nat.eqb_neq in H; rewrite H;
      [reflexivity | apply orb_true_r]. }
  rewrite E. cbn [padded_image h w]. rewrite assign_zeros. reflexivity.
Qed.

Lemma prepare_same (previous : Image) :
  shape previous = (height, width, channels) -> well_formed previous ->
  image_preparation (mkState height width (Some (letterbox previous))) image
  = (mkState height width (Some (letterbox image)), None).
Proof.
  intros Hs Hw. unfold image_preparation. rewrite Hshape. cbn [h w].
  rewrite !Nat.eqb_refl. cbn [negb orb padded_image h w].
  rewrite (assign_letterbox previous Hs Hw). reflexivity.
Qed.

End OneCall.

Lemma shape_eta (image : Image) :
  shape image
  = (fst (fst (shape image)), snd (fst (shape image)), snd (shape image)).
Proof. destruct (shape image) as [[s0 s1] s2]. reflexivity. Qed.

Lemma prepare_all_from (frames : list Image) (previous : Image) (channels : nat) :
  well_formed previous -> snd (shape previous) = channels ->
  Forall well_formed frames ->
  Forall (fun f => snd (shape f) = channels) frames ->
  prepare_all (mkState (fst (fst (shape previous))) (snd (fst (shape previous)))
                       (Some (letterbox previous))) frames
  = (mkState (fst (fst (shape (last frames previous))))
             (snd (fst (shape (last frames previous))))
             (Some (letterbox (last frames previous))), None).
Proof.
  revert previous; induction frames as [|f frames IH];
    intros previous Hwp Hcp Hwf Hc; [reflexivity|].
  inversion Hwf as [|? ? Hf Hwf']; subst. inversion Hc as [|? ? Hcf Hc']; subst.
  cbn [prepare_all].
  assert (E : image_preparation
                (mkState (fst (fst (shape previous)))
                         (snd (fst (shape previous)))
                         (Some (letterbox previous))) f
              = (mkState (fst (fst (shape f))) (snd (fst (shape f)))
                         (Some (letterbox f)), None)).
  { destruct (Nat.eq_dec (fst (fst (shape f))) (fst (fst (shape previous))))
      as [E0|E0];
      [destruct (Nat.eq_dec (snd (fst (shape f))) (snd (fst (shape previous))))
        as [E1|E1]|].
    - rewrite <- E0, <- E1.
      apply (prepare_same f _ _ (snd (shape f)) (shape_eta f) Hf previous);
        [|exact Hwp].
      rewrite (shape_eta previous), E0, E1, Hcf. reflexivity.
    - apply (prepare_fresh f _ _ _ (shape_eta f) Hf). right. exact E1.
    - apply (prepare_fresh f _ _ _ (shape_eta f) Hf). left. exact E0. }
  rewrite E.
  replace (last (f :: frames) previous) with (last frames f)
    by (clear; revert f; induction frames as [|g frames IH]; intro f;
        [reflexivity | cbn [last]; destruct frames; [reflexivity|]; apply IH]).
  apply IH; auto.
Qed.

Lemma prepare_all_stream (first : Image) (rest : list Image) (channels : nat) :
  Forall well_formed (first :: rest) ->
  Forall (fun f => snd (shape f) = channels) (first :: rest) ->
  fst (fst (shape first)) <> 0 \/ snd (fst (shape first)) <> 0 ->
  prepare_all initial (first :: rest)
  = (mkState (fst (fst (shape (last rest first))))
             (snd (fst (shape (last rest first))))
             (Some (letterbox (last rest first))), None).
Proof.
  intros Hwf Hc Hne.
  inversion Hwf as [|? ? Hf Hwf']; subst. inversion Hc as [|? ? Hcf Hc']; subst.
  cbn [prepare_all].
  rewrite (prepare_fresh first _ _ _ (shape_eta first) Hf initial)
    by (cbn [initial h w]; exact Hne).
  now apply prepare_all_from with (channels := snd (shape first)).
Qed.


Lemma half_margins (n : nat) : n / 2 <= n - n / 2 <= n / 2 + 1.
Proof.
  pose proof (Nat.div_mod_eq n 2) as E.
  pose proof (Nat.mod_upper_bound n 2 ltac:(lia)) as M. lia.
Qed.

Section Geometry.
Variable image : Image.
Variables height width channels : nat.
Hypothesis Hshape : shape image = (height, width, channels).

Lemma letterbox_wide :
  height < width ->
  let top := (width - height) / 2 in
  let zero_row := repeat (repeat 0%Q channels) width in
  letterbox image
  = mkBuffer width channels
      (repeat zero_row top ++ image_rows image
       ++ repeat zero_row (width - height - top)).
Proof.
  intros Hlt top zero_row. unfold letterbox. rewrite Hshape.
  apply Nat.ltb_lt in Hlt. now rewrite Hlt.
Qed.

Lemma letterbox_tall :
  width <= height ->
  let left := (height - width) / 2 in
  let zero := repeat 0%Q channels in
  letterbox image
  = mkBuffer height channels
      (map (fun row => repeat zero left ++ row
                       ++ repeat zero (height - width - left))
           (image_rows image)).
Proof.
  intros Hge left zero. unfold letterbox. rewrite Hshape.
  assert (E : (height <? width) = false) by (apply Nat.ltb_ge; exact Hge).
  now rewrite E.
Qed.

Lemma letterbox_geometry :
  let b := letterbox image in
  side b = Nat.max height width
  /\ depth b = channels
  /\ length (content b) = side b
  /\ Forall (fun row => length row = side b) (content b)
  /\ (height < width ->
      let top := (width - height) / 2 in
      firstn height (skipn top (content b)) = image_rows image
      /\ firstn top (content b)
         = repeat (repeat (repeat 0%Q channels) width) top
      /\ skipn (top + height) (content b)
         = repeat (repeat (repeat 0%Q channels) width) (width - height - top)
      /\ top <= width - height - top <= top + 1)
  /\ (width <= height ->
      let left := (height - width) / 2 in
      map (fun row => firstn width (skipn left row)) (content b)
      = image_rows image
      /\ Forall (fun row =>
                   firstn left row = repeat (repeat 0%Q channels) left /\
                   skipn (left + width) row
                   = repeat (repeat 0%Q channels) (height - width - left))
                (content b)
      /\ left <= height - width - left <= left + 1).
Proof.
  intro b. subst b.
  pose proof (image_rows_length image height width channels Hshape) as Hlen.
  pose proof (image_rows_width image height width channels Hshape) as Hwid.
  destruct (lt_dec height width) as [Hlt|Hge].
  - rewrite (letterbox_wide Hlt). cbn [side depth content].
    pose proof (half_le (width - height)) as Hh.
    pose proof (half_margins (width - height)) as Hm.
    set (top := (width - height) / 2) in *.
    set (zero_row := repeat (repeat 0%Q channels) width).
    split; [lia|]. split; [reflexivity|]. split; [|split; [|split]].
    + rewrite !length_app, !repeat_length, Hlen. lia.
    + apply Forall_app; split; [|apply Forall_app; split];
        try (apply Forall_forall; intros r Hr; apply repeat_spec in Hr;
             subst r; apply repeat_length).
      exact Hwid.
    + intros _. split; [|split; [|split]].
      * rewrite skipn_app, skipn_all2 by (rewrite repeat_length; lia).
        rewrite repeat_length, Nat.sub_diag. cbn [skipn app].
        rewrite firstn_app, firstn_all2 by lia.
        rewrite Hlen, Nat.sub_diag, firstn_O. apply app_nil_r.
      * rewrite firstn_app, firstn_all2 by (rewrite repeat_length; lia).
        rewrite repeat_length, Nat.sub_diag, firstn_O. apply app_nil_r.
      * rewrite app_assoc, skipn_app.
        rewrite skipn_all2 by (rewrite length_app, repeat_length; lia).
        rewrite length_app, repeat_length, Hlen, Nat.sub_diag. reflexivity.
      * lia.
    + intro Hc. lia.
  - assert (Hle : width <= height) by lia.
    rewrite (letterbox_tall Hle). cbn [side depth content].
    pose proof (half_le (height - width)) as Hh.
    pose proof (half_margins (height - width)) as Hm.
    set (left := (height - width) / 2) in *.
    set (zero := repeat 0%Q channels).
    rewrite Forall_forall in Hwid.
    split; [lia|]. split; [reflexivity|]. split; [|split; [|split]].
    + now rewrite length_map.
    + apply Forall_forall; intros r Hr. apply in_map_iff in Hr.
      destruct Hr as [row [<- Hrow]].
      rewrite !length_app, !repeat_length, (Hwid row Hrow). lia.
    + intro Hc. lia.
    + intros _. split; [|split].
      * rewrite map_map. rewrite <- (map_id (image_rows image)) at 2.
        apply map_ext_in; intros row Hrow.
        rewrite skipn_app, skipn_all2 by (rewrite repeat_length; lia).
        rewrite repeat_length, Nat.sub_diag. cbn [skipn app].
        rewrite firstn_app, firstn_all2 by (rewrite (Hwid row Hrow); lia).
        rewrite (Hwid row Hrow), Nat.sub_diag, firstn_O. apply app_nil_r.
      * apply Forall_forall; intros r Hr. apply in_map_iff in Hr.
        destruct Hr as [row [<- Hrow]]. split.
        -- rewrite firstn_app, firstn_all2 by (rewrite repeat_length; lia).
           rewrite repeat_length, Nat.sub_diag, firstn_O. apply app_nil_r.
        -- rewrite app_assoc, skipn_app.
           rewrite skipn_all2
             by (rewrite length_app, repeat_length, (Hwid row Hrow); lia).
           rewrite length_app, repeat_length, (Hwid row Hrow), Nat.sub_diag.
           reflexivity.
      * lia.
Qed.

End Geometry.

Lemma prepare_all_app (self : State) (frames : list Image) (image : Image) :
  prepare_all self (frames ++ [image])
  = match prepare_all self frames with
    | (self', None) => image_preparation self' image
    | failed => failed
    end.
Proof.
  revert self; induction frames as [|f frames IH]; intro self.
  - cbn [app prepare_all].
    destruct (image_preparation self image) as [s [e|]]; reflexivity.
  - cbn [app prepare_all].
    destruct (image_preparation self f) as [s [e|]]; [reflexivity | apply IH].
Qed.

Lemma letterbox_depth (image : Image) : depth (letterbox image) = snd (shape image).
Proof.
  unfold letterbox. destruct (shape image) as [[s0 s1] s2].
  destruct (s0 <? s1); reflexivity.
Qed.

Lemma prepare_other_depth (previous image : Image) (height width c c' : nat) :
  shape previous = (height, width, c) ->
  shape image = (height, width, c') ->
  c' <> c -> c' <> 1 ->
  image_preparation (mkState height width (Some (letterbox previous))) image
  = (mkState height width (Some (letterbox previous)), Some ValueError).
Proof.
  intros Hp Hi Hc H1. unfold image_preparation. rewrite Hi. cbn [h w].
  rewrite !Nat.eqb_refl. cbn [negb orb padded_image h w].
  assert (E : fits c' (depth (letterbox previous)) = false).
  { rewrite letterbox_depth, Hp. cbn [snd]. unfold fits.
    apply Nat.eqb_neq in Hc. apply Nat.eqb_neq in H1. now rewrite Hc, H1. }
  unfold assign_rows, assign_columns. rewrite Hi, E, !andb_false_r.
  destruct (height <? width); reflexivity.
Qed.




(** ** Instances for the padded image *)




